(** * SchemaService: query-schema inference for a MongoDB collection

    A shallow embedding of [SchemaService] (the class that samples a
    collection and synthesises the JSON schema of its query documents),
    followed by the properties established about it.

    Modelling conventions.
    - A JavaScript value is a [JsValue].  A plain object is the list of its
      own enumerable properties in enumeration order; JavaScript objects have
      pairwise distinct keys ([wf_value]).  Numbers carry an integer payload,
      serialized in decimal: the code only observes [typeof] on document
      numbers, and the numbers it writes itself are the literals 2 and 0.
    - [o[k] = v] keeps the position of an existing key and appends a new one
      (insertion order).  The special treatment JavaScript gives to
      integer-like keys in enumeration order and to the key [__proto__] is
      outside the model.
    - A function that may throw returns a [Result].
    - A promise is described by the way it settles ([Settled]); the cursor of
      the driver is a script of the answers it gives to [hasNext]/[next]. *)

From Stdlib Require Import String Ascii List ZArith Bool Lia.
From Stdlib Require Decimal DecimalFacts DecimalPos DecimalString.
Import ListNotations.
Local Open Scope list_scope.
Local Open Scope string_scope.

(** ** JavaScript values *)

Unset Elimination Schemes.
Inductive JsValue : Type :=
| JUndefined : JsValue
| JNull : JsValue
| JBool (b : bool) : JsValue
| JNum (n : Z) : JsValue
| JStr (s : string) : JsValue
| JArr (items : list JsValue) : JsValue
| JObj (fields : list (string * JsValue)) : JsValue.
Set Elimination Schemes.

(** A plain object: own enumerable properties, in enumeration order. *)
Definition Obj : Type := list (string * JsValue).

(** Structural induction that also descends into array elements and
    property values. *)
Section JsValueInduction.
Variable P : JsValue -> Prop.
Hypothesis Hundef : P JUndefined.
Hypothesis Hnull : P JNull.
Hypothesis Hbool : forall b, P (JBool b).
Hypothesis Hnum : forall n, P (JNum n).
Hypothesis Hstr : forall s, P (JStr s).
Hypothesis Harr : forall items, Forall P items -> P (JArr items).
Hypothesis Hobj :
  forall fields, Forall (fun kv => P (snd kv)) fields -> P (JObj fields).

Fixpoint JsValue_ind (v : JsValue) : P v :=
  match v with
  | JUndefined => Hundef
  | JNull => Hnull
  | JBool b => Hbool b
  | JNum n => Hnum n
  | JStr s => Hstr s
  | JArr items =>
      Harr items
        ((fix all (l : list JsValue) : Forall P l :=
            match l with
            | [] => Forall_nil P
            | x :: l' => Forall_cons x (JsValue_ind x) (all l')
            end) items)
  | JObj fields =>
      Hobj fields
        ((fix all (l : Obj) : Forall (fun kv => P (snd kv)) l :=
            match l with
            | [] => Forall_nil _
            | kv :: l' =>
                Forall_cons (P := fun kv => P (snd kv)) kv
                  (JsValue_ind (snd kv)) (all l')
            end) fields)
  end.
End JsValueInduction.

(** [Array.isArray(v) ? 'array' : typeof v] *)
Definition typeOf (v : JsValue) : string :=
  match v with
  | JArr _ => "array"
  | JUndefined => "undefined"
  | JNull => "object"
  | JBool _ => "boolean"
  | JNum _ => "number"
  | JStr _ => "string"
  | JObj _ => "object"
  end.

(** [!!v] *)
Definition truthy (v : JsValue) : bool :=
  match v with
  | JUndefined | JNull => false
  | JBool b => b
  | JNum n => negb (Z.eqb n 0)
  | JStr s => negb (String.eqb s "")
  | JArr _ | JObj _ => true
  end.

(** ** Plain objects *)

(** [Object.keys(o)] *)
Definition Object_keys (o : Obj) : list string := map fst o.

(** [o[k]]; [None] stands for [undefined] of an absent key. *)
Fixpoint obj_get (o : Obj) (k : string) : option JsValue :=
  match o with
  | [] => None
  | (k', v) :: rest => if String.eqb k' k then Some v else obj_get rest k
  end.

(** [o[k] = v] *)
Fixpoint obj_set (o : Obj) (k : string) (v : JsValue) : Obj :=
  match o with
  | [] => [(k, v)]
  | (k', v') :: rest =>
      if String.eqb k' k then (k', v) :: rest else (k', v') :: obj_set rest k v
  end.

(** A run of assignments [o[k1] = v1; o[k2] = v2; ...]. *)
Definition obj_assign (o : Obj) (kvs : list (string * JsValue)) : Obj :=
  fold_left (fun acc kv => obj_set acc (fst kv) (snd kv)) kvs o.

(** Keys of every object inside a value are pairwise distinct. *)
Fixpoint nodupb (l : list string) : bool :=
  match l with
  | [] => true
  | x :: l' => negb (existsb (String.eqb x) l') && nodupb l'
  end.

Fixpoint wf_value (v : JsValue) : bool :=
  match v with
  | JArr items => forallb wf_value items
  | JObj fields =>
      nodupb (map fst fields) && forallb (fun kv => wf_value (snd kv)) fields
  | _ => true
  end.

(** ** Exceptions *)

Inductive JsError : Type :=
| TypeError : JsError
| DriverError (message : string) : JsError.

Inductive Result (A : Type) : Type :=
| Ok (a : A) : Result A
| Throw (e : JsError) : Result A.
Arguments Ok {A} a.
Arguments Throw {A} e.

Definition bind {A B : Type} (r : Result A) (k : A -> Result B) : Result B :=
  match r with
  | Ok a => k a
  | Throw e => Throw e
  end.

Notation "'do' x <- r ; k" := (bind r (fun x => k))
  (at level 10, x name, r at level 100, k at level 200).

(** [for (const x of xs) body(x)] over a state that [body] may replace or
    abandon by throwing. *)
Fixpoint for_of {A S : Type} (body : A -> S -> Result S) (xs : list A) (s : S)
  : Result S :=
  match xs with
  | [] => Ok s
  | x :: xs' => do s' <- body x s; for_of body xs' s'
  end.

(** ** Operator catalogue *)

Definition dquote : string := String (ascii_of_nat 34) EmptyString.
Definition newline : string := String (ascii_of_nat 10) EmptyString.

(** [{type: t, description: d}] *)
Definition described (t d : string) : JsValue :=
  JObj [("type", JStr t); ("description", JStr d)].

Definition geometryPropertySchema : JsValue :=
  JObj
    [("type", JStr "object");
     ("properties",
      JObj
        [("type",
          JObj [("type", JStr "string");
                ("default", JStr "GeoJSON object type")]);
         ("coordinates", JObj [("type", JStr "array")]);
         ("crs",
          JObj
            [("type", JStr "object");
             ("properties",
              JObj [("type", JObj [("type", JStr "string")]);
                    ("properties", JObj [("type", JStr "object")])])])])].

Definition comparisonOperators (type : string) : list (string * JsValue) :=
  [("$eq", described type "Matches values that are equal to a specified value");
   ("$gt", described type "Matches values that are greater than a specified value");
   ("$gte", described type "Matches values that are greater than or equal to a specified value");
   ("$lt", described type "Matches values that are less than a specified value");
   ("$lte", described type "Matches values that are less than or equal to a specified value");
   ("$ne", described type "Matches all values that are not equal to a specified value");
   ("$in", described "array" "Matches any of the values specified in an array");
   ("$nin", described "array" "Matches none of the values specified in an array")].

Definition elementOperators : list (string * JsValue) :=
  [("$exists", described "boolean" "Matches documents that have the specified field");
   ("$type", described "string" "Selects documents if a field is of the specified type")].

Definition evaluationOperators : list (string * JsValue) :=
  [("$mod",
    JObj [("type", JStr "array");
          ("description", JStr "Performs a modulo operation on the value of a field and selects documents with a specified result");
          ("maxItems", JNum 2);
          ("default", JArr [JNum 2; JNum 0])]);
   ("$regex", described "string" "Selects documents where values match a specified regular expression")].

Definition nearShape : JsValue :=
  JObj [("$geometry", geometryPropertySchema);
        ("$maxDistance", JObj [("type", JStr "number")]);
        ("$minDistance", JObj [("type", JStr "number")])].

Definition geospatialOperators : list (string * JsValue) :=
  [("$geoWithin",
    JObj [("type", JStr "object");
          ("description", JStr "Selects geometries within a bounding GeoJSON geometry. The 2dsphere and 2d indexes support $geoWithin");
          ("properties",
           JObj [("$geometry", geometryPropertySchema);
                 ("$box", JObj [("type", JStr "array")]);
                 ("$polygon", JObj [("type", JStr "array")]);
                 ("$center", JObj [("type", JStr "array")]);
                 ("$centerSphere", JObj [("type", JStr "array")])])]);
   ("$geoIntersects",
    JObj [("type", JStr "object");
          ("description", JStr "Selects geometries that intersect with a GeoJSON geometry. The 2dsphere index supports $geoIntersects");
          ("properties", JObj [("$geometry", geometryPropertySchema)])]);
   ("$near",
    JObj [("type", JStr "object");
          ("description", JStr "Returns geospatial objects in proximity to a point. Requires a geospatial index. The 2dsphere and 2d indexes support $near");
          ("properties", nearShape)]);
   ("$nearSphere",
    JObj [("type", JStr "object");
          ("description", JStr "Returns geospatial objects in proximity to a point. Requires a geospatial index. The 2dsphere and 2d indexes support $near");
          ("properties", nearShape)])].

Definition arrayOperators : list (string * JsValue) :=
  [("$all", described "array" "Matches arrays that contain all elements specified in the query");
   ("$size", described "number" "Selects documents if the array field is a specified size")].

Definition bitOperators : list (string * JsValue) :=
  [("$bitsAllSet", described "array" "Matches numeric or binary values in which a set of bit positions all have a value of 1");
   ("$bitsAnySet", described "array" "Matches numeric or binary values in which any bit from a set of bit positions has a value of 1");
   ("$bitsAllClear", described "array" "Matches numeric or binary values in which a set of bit positions all have a value of 0");
   ("$bitsAnyClear", described "array" "Matches numeric or binary values in which any bit from a set of bit positions has a value of 0")].

(** The object [expressionSchema.properties] once every assignment of
    [setOperatorProperties] has run. *)
Definition expressionSchema_properties (type : string) : Obj :=
  let properties : Obj := [] in
  let properties := obj_assign properties (comparisonOperators type) in
  let properties := obj_assign properties elementOperators in
  let properties := obj_assign properties evaluationOperators in
  let properties := obj_assign properties geospatialOperators in
  let properties :=
    if String.eqb type "array" then obj_assign properties arrayOperators
    else properties in
  obj_assign properties bitOperators.

Definition notSchema (type : string) : JsValue :=
  JObj [("type", JStr "object");
        ("description", JStr "Inverts the effect of a query expression and returns documents that do not match the query expression");
        ("properties", JObj (expressionSchema_properties type))].

Definition elemMatchSchema : JsValue := JObj [("type", JStr "object")].

(** [!x] for the value of a property that may be absent. *)
Definition falsy (x : option JsValue) : bool :=
  match x with
  | None => true
  | Some v => negb (truthy v)
  end.

Definition setOperatorProperties (type : string) (schema : Obj) : Obj :=
  let schema :=
    if falsy (obj_get schema "properties")
    then obj_set schema "properties" (JObj [])
    else schema in
  (* schema.properties = { ...expressionSchema.properties } *)
  let properties := expressionSchema_properties type in
  let properties := obj_set properties "$not" (notSchema type) in
  let properties := obj_set properties "$elemMatch" elemMatchSchema in
  obj_set schema "properties" (JObj properties).

(** ** Folding a document into the schema *)

(** [schema.properties[k] = v].  Assigning through [undefined] or [null]
    raises a TypeError, and so does assigning through a primitive in strict
    code; the accumulator of this program always holds an object there. *)
Definition assign_property (schema : Obj) (k : string) (v : JsValue)
  : Result Obj :=
  match obj_get schema "properties" with
  | Some (JObj properties) =>
      Ok (obj_set schema "properties" (JObj (obj_set properties k v)))
  | _ => Throw TypeError
  end.

(** [xs.indexOf(x)] *)
Fixpoint indexOf (xs : list string) (x : string) : Z :=
  match xs with
  | [] => -1
  | y :: ys =>
      if String.eqb y x then 0
      else let i := indexOf ys x in if Z.eqb i (-1) then -1 else i + 1
  end.

(** The [parent] argument is a string or [null]; [parent ? a : b] takes the
    second branch for [null] and for the empty string. *)
Definition parent_truthy (parent : option string) : bool :=
  match parent with
  | None => false
  | Some p => negb (String.eqb p "")
  end.

Definition scoped (parent : option string) (property : string) : string :=
  match parent with
  | Some p => if parent_truthy parent then p ++ "." ++ property else property
  | None => property
  end.

(** [!parent && ['_id'].indexOf(property) !== -1] *)
Definition skipped (parent : option string) (property : string) : bool :=
  negb (parent_truthy parent) && negb (Z.eqb (indexOf ["_id"] property) (-1)).

(** [{type: [type, 'object']}] handed to [setOperatorProperties]. *)
Definition propertySchemaFor (type : string) : JsValue :=
  JObj (setOperatorProperties type [("type", JArr [JStr type; JStr "object"])]).

(** Body of [setSchemaForDocumentProperty], with the recursive call to
    [setSchemaForDocument] as a parameter.  [value] is [document[property]]:
    the caller enumerates the properties of [document] and passes the value
    stored under [property]. *)
Definition setSchemaForDocumentProperty_body
    (setSchemaForDocument : option string -> JsValue -> Obj -> Result Obj)
    (parent : option string) (property : string) (value : JsValue)
    (schema : Obj) : Result Obj :=
  let scopedProperty := scoped parent property in
  let type := typeOf value in
  do schema <- assign_property schema scopedProperty (propertySchemaFor type);
  do schema <-
    (if String.eqb type "object"
     then setSchemaForDocument (Some scopedProperty) value schema
     else Ok schema);
  if String.eqb type "array" then
    match value with
    | JArr items => for_of (setSchemaForDocument (Some scopedProperty)) items schema
    | _ => Ok schema
    end
  else Ok schema.

(** [Object.keys(null)] raises a TypeError; [typeof null] is ['object']. *)
Fixpoint setSchemaForDocument (parent : option string) (document : JsValue)
    (schema : Obj) {struct document} : Result Obj :=
  if String.eqb (typeOf document) "object" then
    match document with
    | JObj fields =>
        for_of
          (fun (kv : string * JsValue) schema =>
             let (property, value) := kv in
             if skipped parent property then Ok schema
             else setSchemaForDocumentProperty_body setSchemaForDocument
                    parent property value schema)
          fields schema
    | _ => Throw TypeError
    end
  else Ok schema.

(** [setSchemaForDocumentProperty(parent, property, document, schema)] as
    the source declares it, reading [document[property]] itself.  Reading a
    property of [null] or [undefined] raises a TypeError; the only caller
    passes an object and one of its own keys. *)
Definition setSchemaForDocumentProperty (parent : option string)
    (property : string) (document : JsValue) (schema : Obj) : Result Obj :=
  match document with
  | JNull | JUndefined => Throw TypeError
  | JObj fields =>
      let value :=
        match obj_get fields property with
        | Some v => v
        | None => JUndefined
        end in
      setSchemaForDocumentProperty_body setSchemaForDocument
        parent property value schema
  | _ =>
      setSchemaForDocumentProperty_body setSchemaForDocument
        parent property JUndefined schema
  end.

(** ** Static operators of the schema root *)

(** [schema.properties.k = v] over the list of assignments of one setter. *)
Definition assign_properties (schema : Obj) (kvs : list (string * JsValue))
  : Result Obj :=
  for_of (fun (kv : string * JsValue) schema =>
            assign_property schema (fst kv) (snd kv)) kvs schema.

Definition globalOperators : list (string * JsValue) :=
  [("$text",
    JObj
      [("type", JStr "object");
       ("description", JStr "Performs text search");
       ("properties",
        JObj
          [("$search",
            described "string" "A string of terms that MongoDB parses and uses to query the text index. MongoDB performs a logical OR search of the terms unless specified as a phrase");
           ("$language",
            described "string"
              ("Optional. The language that determines the list of stop words for the search and the rules for the stemmer and tokenizer. If not specified, the search uses the default language of the index."
               ++ newline ++ "If you specify a language value of " ++ dquote
               ++ "none" ++ dquote
               ++ ", then the text search uses simple tokenization with no list of stop words and no stemming"));
           ("$caseSensitive",
            described "boolean" "Optional. A boolean flag to enable or disable case sensitive search. Defaults to false; i.e. the search defers to the case insensitivity of the text index");
           ("$diacriticSensitive",
            described "boolean"
              ("Optional. A boolean flag to enable or disable diacritic sensitive search against version 3 text indexes.Defaults to false; i.e.the search defers to the diacritic insensitivity of the text index"
               ++ newline
               ++ "Text searches against earlier versions of the text index are inherently diacritic sensitive and cannot be diacritic insensitive. As such, the $diacriticSensitive option has no effect with earlier versions of the text index"))]);
       ("required", JArr [JStr "$search"])]);
   ("$where",
    described "string"
      ("Matches documents that satisfy a JavaScript expression." ++ newline
       ++ "Use the $where operator to pass either a string containing a JavaScript expression or a full JavaScript function to the query system"));
   ("$comment", described "string" "Adds a comment to a query predicate")].

Definition setGlobalOperatorProperties (schema : Obj) : Result Obj :=
  assign_properties schema globalOperators.

(** [{type: 'array', description: d, items: {$ref: schemaUri}}] *)
Definition clauses (d schemaUri : string) : JsValue :=
  JObj [("type", JStr "array");
        ("description", JStr d);
        ("items", JObj [("$ref", JStr schemaUri)])].

Definition logicalOperators (schemaUri : string) : list (string * JsValue) :=
  [("$or", clauses "Joins query clauses with a logical OR returns all documents that match the conditions of either clause" schemaUri);
   ("$and", clauses "Joins query clauses with a logical AND returns all documents that match the conditions of both clauses" schemaUri);
   ("$nor", clauses "Joins query clauses with a logical NOR returns all documents that fail to match both clauses" schemaUri)].

Definition setLogicalOperatorProperties (schema : Obj) (schemaUri : string)
  : Result Obj :=
  assign_properties schema (logicalOperators schemaUri).

(** ** [JSON.stringify] *)

(** Strings are sequences of code units below 256; the serializer escapes
    the quote, the backslash and the control characters. *)
Definition backslash : string := "\".

Definition hex_digit (n : nat) : ascii :=
  match n with
  | 0 => "0" | 1 => "1" | 2 => "2" | 3 => "3" | 4 => "4" | 5 => "5"
  | 6 => "6" | 7 => "7" | 8 => "8" | 9 => "9" | 10 => "a" | 11 => "b"
  | 12 => "c" | 13 => "d" | 14 => "e" | _ => "f"
  end%char.

Definition escape_char (c : ascii) : string :=
  let n := nat_of_ascii c in
  if Nat.eqb n 34 then backslash ++ dquote
  else if Nat.eqb n 92 then backslash ++ backslash
  else if Nat.eqb n 8 then backslash ++ "b"
  else if Nat.eqb n 9 then backslash ++ "t"
  else if Nat.eqb n 10 then backslash ++ "n"
  else if Nat.eqb n 12 then backslash ++ "f"
  else if Nat.eqb n 13 then backslash ++ "r"
  else if Nat.ltb n 32 then
    backslash ++ "u00"
    ++ String (hex_digit (n / 16)) (String (hex_digit (n mod 16)) EmptyString)
  else String c EmptyString.

Fixpoint escape (s : string) : string :=
  match s with
  | EmptyString => EmptyString
  | String c rest => escape_char c ++ escape rest
  end.

Definition quote (s : string) : string := dquote ++ escape s ++ dquote.

Definition number_text (n : Z) : string :=
  match n with
  | Z0 => "0"
  | Zpos p => DecimalString.NilEmpty.string_of_uint (Pos.to_uint p)
  | Zneg p => "-" ++ DecimalString.NilEmpty.string_of_uint (Pos.to_uint p)
  end.

Fixpoint join (sep : string) (parts : list string) : string :=
  match parts with
  | [] => EmptyString
  | [x] => x
  | x :: rest => x ++ sep ++ join sep rest
  end.

Definition is_undefined (v : JsValue) : bool :=
  match v with
  | JUndefined => true
  | _ => false
  end.

(** Serialization of a value in element or member position: [undefined]
    inside an array is written [null], a member whose value is [undefined]
    is left out. *)
Fixpoint stringify (v : JsValue) : string :=
  match v with
  | JUndefined | JNull => "null"
  | JBool true => "true"
  | JBool false => "false"
  | JNum n => number_text n
  | JStr s => quote s
  | JArr items => "[" ++ join "," (map stringify items) ++ "]"
  | JObj fields =>
      "{"
      ++ join ","
           (flat_map
              (fun kv : string * JsValue =>
                 let (key, value) := kv in
                 if is_undefined value then []
                 else [quote key ++ ":" ++ stringify value]) fields)
      ++ "}"
  end.

(** [JSON.stringify(v)]: [undefined] at the top yields [undefined]. *)
Definition JSON_stringify (v : JsValue) : JsValue :=
  match v with
  | JUndefined => JUndefined
  | _ => JStr (stringify v)
  end.

(** ** The JSON grammar (RFC 8259, texts without insignificant whitespace) *)

Definition is_digit (c : ascii) : bool :=
  let n := nat_of_ascii c in Nat.leb 48 n && Nat.leb n 57.

Definition is_hex (c : ascii) : bool :=
  let n := nat_of_ascii c in
  is_digit c || (Nat.leb 65 n && Nat.leb n 70) || (Nat.leb 97 n && Nat.leb n 102).

Fixpoint all_digits (s : string) : bool :=
  match s with
  | EmptyString => true
  | String c rest => is_digit c && all_digits rest
  end.

(** int = zero / ( digit1-9 *DIGIT ) *)
Definition json_int (s : string) : bool :=
  match s with
  | EmptyString => false
  | String c rest =>
      if Ascii.eqb c "0" then String.eqb rest ""
      else is_digit c && all_digits rest
  end.

(** frac = decimal-point 1*DIGIT *)
Definition json_frac (s : string) : bool :=
  match s with
  | String "." (String c rest) => is_digit c && all_digits rest
  | _ => false
  end.

(** exp = e [ minus / plus ] 1*DIGIT *)
Definition json_exp (s : string) : bool :=
  match s with
  | String e rest =>
      (Ascii.eqb e "e" || Ascii.eqb e "E")
      && match rest with
         | String c rest' =>
             if Ascii.eqb c "-" || Ascii.eqb c "+"
             then negb (String.eqb rest' "") && all_digits rest'
             else is_digit c && all_digits rest'
         | EmptyString => false
         end
  | EmptyString => false
  end.

Inductive JsonNumber : string -> Prop :=
| json_number (minus int frac exp : string) :
    minus = "" \/ minus = "-" ->
    json_int int = true ->
    frac = "" \/ json_frac frac = true ->
    exp = "" \/ json_exp exp = true ->
    JsonNumber (minus ++ int ++ frac ++ exp).

(** The characters between the quotes of a string. *)
Inductive JsonChars : string -> Prop :=
| chars_end : JsonChars ""
| chars_plain (c : ascii) (rest : string) :
    32 <= nat_of_ascii c -> nat_of_ascii c <> 34 -> nat_of_ascii c <> 92 ->
    JsonChars rest -> JsonChars (String c rest)
| chars_escape (c : ascii) (rest : string) :
    In c ["034"; "\"; "/"; "b"; "f"; "n"; "r"; "t"]%char ->
    JsonChars rest -> JsonChars (backslash ++ String c rest)
| chars_unicode (h1 h2 h3 h4 : ascii) (rest : string) :
    is_hex h1 = true -> is_hex h2 = true ->
    is_hex h3 = true -> is_hex h4 = true ->
    JsonChars rest ->
    JsonChars
      (backslash ++ "u" ++ String h1 (String h2 (String h3 (String h4 rest)))).

Inductive JsonText : string -> Prop :=
| json_null : JsonText "null"
| json_true : JsonText "true"
| json_false : JsonText "false"
| json_num (s : string) : JsonNumber s -> JsonText s
| json_string (s : string) : JsonChars s -> JsonText (dquote ++ s ++ dquote)
| json_empty_array : JsonText "[]"
| json_array (s : string) : JsonElements s -> JsonText ("[" ++ s ++ "]")
| json_empty_object : JsonText "{}"
| json_object (s : string) : JsonMembers s -> JsonText ("{" ++ s ++ "}")
with JsonElements : string -> Prop :=
| elements_last (s : string) : JsonText s -> JsonElements s
| elements_more (s rest : string) :
    JsonText s -> JsonElements rest -> JsonElements (s ++ "," ++ rest)
with JsonMembers : string -> Prop :=
| members_last (k v : string) :
    JsonChars k -> JsonText v ->
    JsonMembers (dquote ++ k ++ dquote ++ ":" ++ v)
| members_more (k v rest : string) :
    JsonChars k -> JsonText v -> JsonMembers rest ->
    JsonMembers ((dquote ++ k ++ dquote ++ ":" ++ v) ++ "," ++ rest).

(** The text of one member: a quoted key, a colon, a JSON text. *)
Inductive MemberText : string -> Prop :=
| member_text (k v : string) :
    JsonChars k -> JsonText v -> MemberText (dquote ++ k ++ dquote ++ ":" ++ v).

(** ** The driver, promises and the service *)

(** A cursor is the script of its answers: [hasNext()] resolves [false]
    ([Exhausted]); [hasNext()] resolves [true] and [next()] resolves a
    document ([Yield]); or one of the two calls is rejected. *)
Inductive Cursor : Type :=
| Exhausted : Cursor
| Yield (doc : JsValue) (rest : Cursor) : Cursor
| HasNextRejects (e : JsError) : Cursor
| NextRejects (e : JsError) : Cursor.

Record Collection : Type :=
  { collectionName : string;
    find : Result Cursor }.

Record Db : Type :=
  { collection : string -> Result Collection;
    collections : Result (list Collection) }.

Record SchemaConfiguration : Type :=
  { uri : string;
    fileMatch : list string }.

Record SchemaService : Type :=
  { _db : option Db }.

(** How a promise ends up. *)
Inductive Settled : Type :=
| Fulfilled (value : JsValue) : Settled
| Rejected (e : JsError) : Settled
| Pending : Settled.

(** What a call of [resolveSchema] does. *)
Inductive Completion : Type :=
| ReturnsUndefined : Completion
| ReturnsPromise (p : Settled) : Completion
| Throws (e : JsError) : Completion.

(** The fate of the callback handed to [readNext]: invoked (inside a promise
    reaction or directly in the caller's frame) with some outcome, leaving the
    cursor in some state, or never invoked because a promise of the driver
    was rejected and nothing observes it. *)
Inductive Invocation (R : Type) : Type :=
| Invoked (inReaction : bool) (outcome : R) (rest : Cursor) : Invocation R
| NotInvoked (e : JsError) : Invocation R.
Arguments Invoked {R} inReaction outcome rest.
Arguments NotInvoked {R} e.

Definition queryCollectionSchema (collectionName : string) : string :=
  "mongo://query/" ++ collectionName.

Definition queryDocumentUri : string := "mongo://query.json".

(** [registerSchemas(db)]: the new state of the service and the value the
    returned promise settles to ([Throw] for a rejection). *)
Definition registerSchemas (this : SchemaService) (db : Db)
  : SchemaService * Result (list SchemaConfiguration) :=
  ({| _db := Some db |},
   do collections <- collections db;
   Ok (map (fun c => {| uri := queryCollectionSchema (collectionName c);
                        fileMatch := [queryDocumentUri] |}) collections)).

(** [readNext(result, cursor, batchSize, callback)].  [inReaction] records
    whether the call runs inside a [then] reaction; every recursive call
    does. *)
Fixpoint readNext {R : Type} (inReaction : bool) (result : list JsValue)
    (cursor : Cursor) (batchSize : nat) (callback : list JsValue -> R)
    {struct cursor} : Invocation R :=
  if Nat.eqb (length result) batchSize then
    Invoked inReaction (callback result) cursor
  else
    match cursor with
    | HasNextRejects e => NotInvoked e
    | Exhausted => Invoked true (callback result) cursor
    | NextRejects e => NotInvoked e
    | Yield doc rest =>
        readNext true (result ++ [doc])%list rest batchSize callback
    end.

(** The callback [_resolveQueryCollectionSchema] hands to [readNext]; its
    value is the argument it passes to the resolver [c]. *)
Definition resolveCallback (schemaUri : string) (result : list JsValue)
  : Result JsValue :=
  let schema : Obj := [("type", JStr "object"); ("properties", JObj [])] in
  do schema <- for_of (setSchemaForDocument None) result schema;
  do schema <- setGlobalOperatorProperties schema;
  do schema <- setLogicalOperatorProperties schema schemaUri;
  Ok (JSON_stringify (JObj schema)).

(** [new Promise((c, e) => readNext([], cursor, 10, callback))]: an
    exception thrown in the executor's own frame rejects the promise, an
    exception thrown inside a reaction rejects a promise nobody holds, and
    [e] is never called. *)
Definition sampleAndResolve (cursor : Cursor) (schemaUri : string) : Settled :=
  match readNext false [] cursor 10 (resolveCallback schemaUri) with
  | Invoked inReaction outcome _ =>
      match outcome with
      | Ok text => Fulfilled text
      | Throw e => if inReaction then Pending else Rejected e
      end
  | NotInvoked _ => Pending
  end.

Definition _resolveQueryCollectionSchema (this : SchemaService)
    (collectionName schemaUri : string) : Completion :=
  match _db this with
  | None => Throws TypeError
  | Some db =>
      match collection db collectionName with
      | Throw e => Throws e
      | Ok collection =>
          match find collection with
          | Throw e => Throws e
          | Ok cursor => ReturnsPromise (sampleAndResolve cursor schemaUri)
          end
      end
  end.

Definition resolveSchema (this : SchemaService) (uri : string) : Completion :=
  if String.prefix "mongo://query/" uri then
    _resolveQueryCollectionSchema this
      (String.substring (String.length "mongo://query/")
         (String.length uri - String.length "mongo://query/") uri)
      uri
  else ReturnsUndefined.

(** ** The assignments of a fold, as a log

    [assignments parent document] lists, in execution order, the pairs
    (scoped path, value) for which [setSchemaForDocument parent document]
    executes [schema.properties[path] = ...]; it throws where the fold
    throws.  [fold_replay] below shows that the fold is the replay of this
    log on the accumulator. *)

Fixpoint collect {A B : Type} (f : A -> Result (list B)) (xs : list A)
  : Result (list B) :=
  match xs with
  | [] => Ok []
  | x :: xs' => do t <- f x; do t' <- collect f xs'; Ok (t ++ t')%list
  end.

Definition assignments_property
    (assignments : option string -> JsValue -> Result (list (string * JsValue)))
    (parent : option string) (property : string) (value : JsValue)
  : Result (list (string * JsValue)) :=
  let scopedProperty := scoped parent property in
  do inner <-
    (if String.eqb (typeOf value) "object"
     then assignments (Some scopedProperty) value
     else Ok []);
  do elements <-
    (if String.eqb (typeOf value) "array" then
       match value with
       | JArr items => collect (assignments (Some scopedProperty)) items
       | _ => Ok []
       end
     else Ok []);
  Ok ((scopedProperty, value) :: inner ++ elements)%list.

Fixpoint assignments (parent : option string) (document : JsValue)
    {struct document} : Result (list (string * JsValue)) :=
  if String.eqb (typeOf document) "object" then
    match document with
    | JObj fields =>
        collect
          (fun kv : string * JsValue =>
             let (property, value) := kv in
             if skipped parent property then Ok []
             else assignments_property assignments parent property value)
          fields
    | _ => Throw TypeError
    end
  else Ok [].

(** The schema node stored for a logged assignment. *)
Definition node_of (w : string * JsValue) : string * JsValue :=
  (fst w, propertySchemaFor (typeOf (snd w))).

(** The [properties] object of a schema, when it is an object. *)
Definition properties_of (schema : Obj) : option Obj :=
  match obj_get schema "properties" with
  | Some (JObj properties) => Some properties
  | _ => None
  end.

(** The accumulator after the logged assignments have been replayed. *)
Definition replay (schema properties : Obj) (log : list (string * JsValue))
  : Obj :=
  obj_set schema "properties" (JObj (obj_assign properties (map node_of log))).

(** Fields a fold can reach, as a property of the document alone: the field
    under key path [ks] holds [v], where each step enters the object stored
    under a key or an object among the elements of the array stored under
    it. *)
Inductive field_at : JsValue -> list string -> JsValue -> Prop :=
| field_here (o : Obj) (k : string) (v : JsValue) :
    In (k, v) o -> field_at (JObj o) [k] v
| field_in_object (o o' : Obj) (k : string) (ks : list string) (v : JsValue) :
    In (k, JObj o') o -> field_at (JObj o') ks v ->
    field_at (JObj o) (k :: ks) v
| field_in_element (o o' : Obj) (items : list JsValue) (k : string)
    (ks : list string) (v : JsValue) :
    In (k, JArr items) o -> In (JObj o') items -> field_at (JObj o') ks v ->
    field_at (JObj o) (k :: ks) v.

(** The dotted path of a key path. *)
Definition dotted (ks : list string) : string := String.concat "." ks.

(** The scoped path the code computes along a key path. *)
Fixpoint scoped_path (parent : option string) (ks : list string)
  : option string :=
  match ks with
  | [] => parent
  | k :: ks' => scoped_path (Some (scoped parent k)) ks'
  end.

(** The fresh accumulator of a resolution. *)
Definition emptySchema : Obj :=
  [("type", JStr "object"); ("properties", JObj [])].

(** The loop [for (const document of result) setSchemaForDocument(null, ...)]. *)
Definition foldDocuments (result : list JsValue) (schema : Obj) : Result Obj :=
  for_of (setSchemaForDocument None) result schema.

(** The string contains a dot. *)
Fixpoint has_dot (s : string) : bool :=
  match s with
  | EmptyString => false
  | String c rest => Ascii.eqb c "." || has_dot rest
  end.

(** No key along the path is passed over by the guard on [_id]. *)
Fixpoint never_skipped (parent : option string) (ks : list string) : bool :=
  match ks with
  | [] => true
  | k :: ks' =>
      negb (skipped parent k) && never_skipped (Some (scoped parent k)) ks'
  end.

(** What the paths assigned below [parent] have in common: a dot when the
    parent is a non-empty string, and otherwise a path other than ["_id"]. *)
Definition path_ok (parent : option string) (path : string) : Prop :=
  if parent_truthy parent then has_dot path = true else path <> "_id".

(** [node.k] for a schema node. *)
Definition attribute (node : JsValue) (k : string) : option JsValue :=
  match node with
  | JObj o => obj_get o k
  | _ => None
  end.

(** A cursor that yields [docs] and then behaves as [rest]. *)
Definition feed (docs : list JsValue) (rest : Cursor) : Cursor :=
  fold_right Yield rest docs.

(** The documents [readNext] hands to its callback, when it does. *)
Definition sampled (cursor : Cursor) (batchSize : nat)
  : Invocation (list JsValue) :=
  readNext false [] cursor batchSize (fun result => result).

(** ** Sample inputs *)

Definition profileDocument : JsValue :=
  JObj [("_id", JNum 1); ("profile", JObj [("_id", JNum 2)])].

Definition tagsDocument : JsValue :=
  JObj [("tags", JArr [JObj [("x", JNum 1)]; JObj [("x", JStr "s")]])].


Definition unreachableDb : Db :=
  {| collection := fun _ => Throw (DriverError "connection closed");
     collections := Throw (DriverError "connection closed") |}.

(** A database every collection of which is read through [cursor]. *)
Definition dbOf (cursor : Cursor) : Db :=
  {| collection := fun name =>
       Ok {| collectionName := name; find := Ok cursor |};
     collections := Ok [] |}.

Definition staticKeys : list string :=
  ["$text"; "$where"; "$comment"; "$or"; "$and"; "$nor"].

Definition emptyRootKeyDocument : JsValue :=
  JObj [("", JObj [("_id", JNum 2); ("a", JNum 1)])].

Definition nestedArraysDocument : JsValue :=
  JObj [("a", JArr [JArr [JObj [("_id", JNum 2)]]])].

Definition twelveDocuments : list JsValue :=
  map JNum [1; 2; 3; 4; 5; 6; 7; 8; 9; 10; 11; 12]%Z.

(** ** Further notions *)

(** No [null] anywhere inside the value. *)
Fixpoint null_free (v : JsValue) : bool :=
  match v with
  | JNull => false
  | JArr items => forallb null_free items
  | JObj fields => forallb (fun kv : string * JsValue => null_free (snd kv)) fields
  | _ => true
  end.



(** The operators whose value is typed like the field. *)
Definition comparisonKeys : list string :=
  ["$eq"; "$gt"; "$gte"; "$lt"; "$lte"; "$ne"].

(** * Properties *)

(** ** Plain objects *)

Lemma obj_get_set_same (o : Obj) (k : string) (v : JsValue) :
  obj_get (obj_set o k v) k = Some v.
Proof.
  induction o as [|[k' v'] o IH]; simpl.
  - now rewrite String.eqb_refl.
  - destruct (String.eqb k' k) eqn:E; simpl; rewrite E; auto.
Qed.

Lemma obj_get_set_other (o : Obj) (k k' : string) (v : JsValue) :
  k <> k' -> obj_get (obj_set o k v) k' = obj_get o k'.
Proof.
  intros Hne. induction o as [|[k0 v0] o IH]; simpl.
  - destruct (String.eqb k k') eqn:E; auto.
    apply String.eqb_eq in E. contradiction.
  - destruct (String.eqb k0 k) eqn:E; simpl.
    + apply String.eqb_eq in E. subst k0.
      destruct (String.eqb k k') eqn:E'; auto.
      apply String.eqb_eq in E'. contradiction.
    + destruct (String.eqb k0 k'); auto.
Qed.

Lemma obj_set_set_same (o : Obj) (k : string) (v w : JsValue) :
  obj_set (obj_set o k v) k w = obj_set o k w.
Proof.
  induction o as [|[k' v'] o IH]; simpl.
  - now rewrite String.eqb_refl.
  - destruct (String.eqb k' k) eqn:E; simpl; rewrite E; congruence.
Qed.

Lemma obj_set_get_id (o : Obj) (k : string) (v : JsValue) :
  obj_get o k = Some v -> obj_set o k v = o.
Proof.
  induction o as [|[k' v'] o IH]; simpl; intros H; [discriminate|].
  destruct (String.eqb k' k); [congruence|]. now rewrite IH.
Qed.

Lemma obj_assign_app (o : Obj) (l1 l2 : list (string * JsValue)) :
  obj_assign o (l1 ++ l2)%list = obj_assign (obj_assign o l1) l2.
Proof. unfold obj_assign. apply fold_left_app. Qed.

Lemma properties_of_set (s p : Obj) :
  properties_of (obj_set s "properties" (JObj p)) = Some p.
Proof. unfold properties_of. now rewrite obj_get_set_same. Qed.

Lemma properties_of_get (s p : Obj) :
  properties_of s = Some p -> obj_get s "properties" = Some (JObj p).
Proof.
  unfold properties_of.
  destruct (obj_get s "properties") as [[]|]; congruence.
Qed.

Lemma assign_property_ok (s p : Obj) (k : string) (v : JsValue) :
  properties_of s = Some p ->
  assign_property s k v = Ok (obj_set s "properties" (JObj (obj_set p k v))).
Proof.
  intros H. unfold assign_property. now rewrite (properties_of_get _ _ H).
Qed.

Lemma replay_nil (s p : Obj) : properties_of s = Some p -> replay s p [] = s.
Proof.
  intros H. unfold replay. simpl. apply obj_set_get_id.
  now apply properties_of_get.
Qed.

Lemma replay_properties (s p : Obj) (log : list (string * JsValue)) :
  properties_of (replay s p log) = Some (obj_assign p (map node_of log)).
Proof. apply properties_of_set. Qed.

Lemma replay_replay (s p : Obj) (l1 l2 : list (string * JsValue)) :
  replay (replay s p l1) (obj_assign p (map node_of l1)) l2
  = replay s p (l1 ++ l2).
Proof.
  unfold replay. now rewrite obj_set_set_same, map_app, obj_assign_app.
Qed.

(** ** Induction on documents that reaches the elements of array-valued
    fields *)

Lemma JsValue_deep_ind (Q : JsValue -> Prop) :
  Q JUndefined -> Q JNull -> (forall b, Q (JBool b)) ->
  (forall n, Q (JNum n)) -> (forall s, Q (JStr s)) ->
  (forall items, Forall Q items -> Q (JArr items)) ->
  (forall fields,
      Forall (fun kv : string * JsValue =>
                Q (snd kv)
                /\ forall items, snd kv = JArr items -> Forall Q items)
             fields ->
      Q (JObj fields)) ->
  forall v, Q v.
Proof.
  intros Hu Hn Hb Hz Hs Ha Ho v.
  enough (H : Q v /\ forall items, v = JArr items -> Forall Q items)
    by apply H.
  induction v as [| | b | n | s | items IH | fields IH] using JsValue_ind;
    try (split; [auto | discriminate]).
  assert (Hall : Forall Q items).
  { eapply Forall_impl; [|exact IH]. intros x Hx. apply Hx. }
  split; [auto|]. intros items' E. now inversion E; subst.
Qed.

(** ** The fold replays its log *)

(** A loop of folds replays the concatenation of the logs. *)
Lemma for_of_replay {A : Type}
    (body : A -> Obj -> Result Obj)
    (log : A -> Result (list (string * JsValue))) (xs : list A) :
  Forall (fun x => forall s p, properties_of s = Some p ->
                     body x s = do t <- log x; Ok (replay s p t)) xs ->
  forall s p, properties_of s = Some p ->
    for_of body xs s = do t <- collect log xs; Ok (replay s p t).
Proof.
  induction 1 as [|x xs Hx _ IH]; intros s p Hp; simpl.
  - now rewrite replay_nil.
  - rewrite (Hx s p Hp). destruct (log x) as [t|e]; simpl; [|reflexivity].
    rewrite (IH _ _ (replay_properties s p t)).
    destruct (collect log xs) as [t'|e]; simpl; [|reflexivity].
    now rewrite replay_replay.
Qed.

Lemma fold_replay (document : JsValue) :
  forall parent s p, properties_of s = Some p ->
    setSchemaForDocument parent document s
    = do t <- assignments parent document; Ok (replay s p t).
Proof.
  induction document as [| | b | n | str | items _ | fields IH]
    using JsValue_deep_ind; intros parent s p Hp; simpl;
    try reflexivity; try (now rewrite replay_nil).
  apply for_of_replay; [|exact Hp].
  eapply Forall_impl; [|exact IH].
  intros [property value] [Hv Hitems] s0 p0 Hp0. simpl in Hv, Hitems.
  destruct (skipped parent property); simpl; [now rewrite replay_nil|].
  unfold setSchemaForDocumentProperty_body, assignments_property.
  rewrite (assign_property_ok _ _ _ _ Hp0). simpl.
  set (sp := scoped parent property).
  set (s1 := obj_set s0 "properties" _).
  assert (Hs1 : s1 = replay s0 p0 [(sp, value)]) by reflexivity.
  assert (Hp1 : properties_of s1 = Some (obj_assign p0 (map node_of [(sp, value)])))
    by (rewrite Hs1; apply replay_properties).
  assert (Hinner :
    (if String.eqb (typeOf value) "object"
     then setSchemaForDocument (Some sp) value s1 else Ok s1)
    = do t <- (if String.eqb (typeOf value) "object"
               then assignments (Some sp) value else Ok []);
      Ok (replay s0 p0 ((sp, value) :: t))).
  { destruct (String.eqb (typeOf value) "object").
    - rewrite (Hv _ _ _ Hp1).
      destruct (assignments (Some sp) value); simpl; [|reflexivity].
      now rewrite Hs1, replay_replay.
    - simpl. now rewrite Hs1. }
  rewrite Hinner.
  destruct (if String.eqb (typeOf value) "object"
            then assignments (Some sp) value else Ok []) as [t1|e];
    simpl; [|reflexivity].
  assert (Hp2 : properties_of (replay s0 p0 ((sp, value) :: t1))
                = Some (obj_assign p0 (map node_of ((sp, value) :: t1))))
    by apply replay_properties.
  destruct (String.eqb (typeOf value) "array") eqn:Earr.
  - destruct value as [| | | | | items |]; try discriminate Earr.
    rewrite (for_of_replay _ (assignments (Some sp)) items
               (Forall_impl _ (fun x Hx => Hx (Some sp)) (Hitems _ eq_refl))
               _ _ Hp2).
    destruct (collect (assignments (Some sp)) items) as [t2|e];
      cbn [bind]; [|reflexivity].
    now rewrite (replay_replay s0 p0 ((sp, JArr items) :: t1) t2).
  - simpl. now rewrite app_nil_r.
Qed.

(** ** What the log of a fold contains *)

Lemma collect_In {A B : Type} (f : A -> Result (list B)) (xs : list A)
    (t : list B) (w : B) :
  collect f xs = Ok t -> In w t ->
  exists x t', In x xs /\ f x = Ok t' /\ In w t'.
Proof.
  revert t. induction xs as [|x xs IH]; simpl; intros t H Hin.
  - inversion H; subst. contradiction.
  - destruct (f x) as [t1|e] eqn:Ex; simpl in H; [|discriminate].
    destruct (collect f xs) as [t2|e] eqn:Exs; simpl in H; [|discriminate].
    inversion H; subst. apply in_app_or in Hin. destruct Hin as [Hin|Hin].
    + exists x, t1. auto.
    + destruct (IH _ eq_refl Hin) as (y & t' & Hy & Hfy & Hw).
      exists y, t'. auto.
Qed.

Lemma collect_complete {A B : Type} (f : A -> Result (list B)) (xs : list A)
    (t : list B) (x : A) :
  collect f xs = Ok t -> In x xs ->
  exists t', f x = Ok t' /\ forall w, In w t' -> In w t.
Proof.
  revert t. induction xs as [|y xs IH]; simpl; intros t H Hin; [contradiction|].
  destruct (f y) as [t1|e] eqn:Ey; simpl in H; [|discriminate].
  destruct (collect f xs) as [t2|e] eqn:Exs; simpl in H; [|discriminate].
  inversion H; subst. destruct Hin as [->|Hin].
  - exists t1. split; [assumption|]. intros w Hw. apply in_or_app. auto.
  - destruct (IH _ eq_refl Hin) as (t' & Hf & Hsub).
    exists t'. split; [assumption|]. intros w Hw. apply in_or_app. auto.
Qed.

(** Every exception of a fold is the TypeError of [Object.keys(null)]. *)
Lemma collect_error {A B : Type} (f : A -> Result (list B)) (xs : list A)
    (e : JsError) :
  Forall (fun x => forall e', f x = Throw e' -> e' = TypeError) xs ->
  collect f xs = Throw e -> e = TypeError.
Proof.
  induction 1 as [|x xs Hx _ IH]; simpl; [discriminate|].
  destruct (f x) as [t1|e1] eqn:Ex; simpl.
  - destruct (collect f xs) as [t2|e2]; simpl; [discriminate|].
    intros H. inversion H; subst. now apply IH.
  - intros H. inversion H; subst. now apply Hx.
Qed.

(** The shape of the log of one property. *)
Lemma assignments_property_inv parent property value t :
  assignments_property assignments parent property value = Ok t ->
  exists inner elements,
    t = ((scoped parent property, value) :: inner ++ elements)%list
    /\ (if String.eqb (typeOf value) "object"
        then assignments (Some (scoped parent property)) value
        else Ok []) = Ok inner
    /\ (if String.eqb (typeOf value) "array" then
          match value with
          | JArr items =>
              collect (assignments (Some (scoped parent property))) items
          | _ => Ok []
          end
        else Ok []) = Ok elements.
Proof.
  unfold assignments_property. intros H.
  destruct (if String.eqb (typeOf value) "object" then _ else _)
    as [inner|e]; simpl in H; [|discriminate].
  destruct (if String.eqb (typeOf value) "array" then _ else _)
    as [elements|e]; simpl in H; [|discriminate].
  inversion H; subst. eauto.
Qed.

Lemma assignments_error (document : JsValue) :
  forall parent e, assignments parent document = Throw e -> e = TypeError.
Proof.
  induction document as [| | b | n | str | items _ | fields IH]
    using JsValue_deep_ind; intros parent e; simpl;
    try discriminate; try congruence.
  apply collect_error. eapply Forall_impl; [|exact IH].
  intros [property value] [Hv Hitems] e'. simpl in Hv, Hitems.
  destruct (skipped parent property); [discriminate|].
  unfold assignments_property.
  destruct (String.eqb (typeOf value) "object") eqn:Eobj.
  - destruct (assignments (Some (scoped parent property)) value) eqn:Ei; simpl.
    + destruct (String.eqb (typeOf value) "array") eqn:Earr;
        [|discriminate].
      destruct value; simpl in Eobj, Earr; discriminate.
    + intros H. inversion H; subst. eauto.
  - simpl. destruct (String.eqb (typeOf value) "array"); [|discriminate].
    destruct value as [| | | | | items |]; try discriminate.
    destruct (collect _ items) eqn:Ec; simpl; [discriminate|].
    intros H. inversion H; subst.
    eapply collect_error; [|exact Ec].
    eapply Forall_impl; [|exact (Hitems _ eq_refl)].
    intros x Hx e''. apply Hx.
Qed.

(** ** Scoped paths *)

Lemma has_dot_app (a b : string) : has_dot (a ++ b) = has_dot a || has_dot b.
Proof.
  induction a as [|c a IH]; simpl; [reflexivity|].
  rewrite IH. now rewrite orb_assoc.
Qed.

Lemma append_assoc (a b c : string) : (a ++ b) ++ c = a ++ b ++ c.
Proof. induction a as [|x a IH]; simpl; congruence. Qed.

Lemma append_nonempty (a b : string) : b <> "" -> a ++ b <> "".
Proof. destruct a; simpl; [auto|discriminate]. Qed.

Lemma skipped_spec (parent : option string) (k : string) :
  skipped parent k = negb (parent_truthy parent) && String.eqb "_id" k.
Proof.
  unfold skipped, indexOf. now destruct (String.eqb "_id" k).
Qed.

Lemma parent_truthy_inv (parent : option string) :
  parent_truthy parent = true -> exists p, parent = Some p /\ p <> "".
Proof.
  destruct parent as [p|]; simpl; [|discriminate].
  intros H. exists p. split; [reflexivity|].
  intros ->. discriminate.
Qed.

Lemma parent_truthy_some (p : string) : p <> "" -> parent_truthy (Some p) = true.
Proof.
  intros H. simpl. destruct (String.eqb p "") eqn:E; [|reflexivity].
  apply String.eqb_eq in E. contradiction.
Qed.

Lemma scoped_truthy (p k : string) :
  p <> "" -> scoped (Some p) k = p ++ "." ++ k.
Proof. intros H. unfold scoped. now rewrite (parent_truthy_some _ H). Qed.

Lemma scoped_falsy (parent : option string) (k : string) :
  parent_truthy parent = false -> scoped parent k = k.
Proof. unfold scoped. destruct parent; intros H; [rewrite H|]; reflexivity. Qed.

Lemma path_ok_child (parent : option string) (k path : string) :
  path_ok (Some (scoped parent k)) path -> path_ok parent path.
Proof.
  unfold path_ok. destruct (parent_truthy parent) eqn:Ep.
  - destruct (parent_truthy_inv _ Ep) as (p & -> & Hp).
    rewrite (scoped_truthy _ _ Hp).
    rewrite parent_truthy_some; [auto|].
    apply append_nonempty. discriminate.
  - destruct (parent_truthy (Some (scoped parent k))); [|auto].
    intros H ->. discriminate.
Qed.

Lemma path_ok_here (parent : option string) (k : string) :
  skipped parent k = false -> path_ok parent (scoped parent k).
Proof.
  rewrite skipped_spec. unfold path_ok.
  destruct (parent_truthy parent) eqn:Ep; simpl.
  - intros _. destruct (parent_truthy_inv _ Ep) as (p & -> & Hp).
    rewrite (scoped_truthy _ _ Hp), !has_dot_app. simpl.
    now rewrite orb_true_r.
  - rewrite (scoped_falsy _ _ Ep). intros H ->. discriminate.
Qed.

Lemma assignments_paths (document : JsValue) :
  forall parent t, assignments parent document = Ok t ->
    forall path v, In (path, v) t -> path_ok parent path.
Proof.
  induction document as [| | b | n | str | items _ | fields IH]
    using JsValue_deep_ind; intros parent t; simpl;
    try (intros [= <-] ? ? []); try discriminate.
  intros Ht path v Hin.
  destruct (collect_In _ _ _ _ Ht Hin) as ([k value] & t' & Hk & Hf & Hw).
  rewrite Forall_forall in IH. destruct (IH _ Hk) as [Hv Hitems].
  simpl in Hv, Hitems.
  destruct (skipped parent k) eqn:Esk; [inversion Hf; subst; contradiction|].
  destruct (assignments_property_inv _ _ _ _ Hf)
    as (inner & elements & -> & Hinner & Helements).
  destruct Hw as [Hw|Hw]; [inversion Hw; subst; now apply path_ok_here|].
  apply in_app_or in Hw. destruct Hw as [Hw|Hw].
  - destruct (String.eqb (typeOf value) "object");
      [|inversion Hinner; subst; contradiction].
    apply (path_ok_child parent k). eapply Hv; eauto.
  - destruct (String.eqb (typeOf value) "array");
      [|inversion Helements; subst; contradiction].
    destruct value as [| | | | | items |];
      try (inversion Helements; subst; contradiction).
    destruct (collect_In _ _ _ _ Helements Hw) as (x & tx & Hx & Hfx & Hwx).
    specialize (Hitems _ eq_refl). rewrite Forall_forall in Hitems.
    apply (path_ok_child parent k). eapply Hitems; eauto.
Qed.

(** Every logged assignment is a field of the document. *)
Lemma assignments_sound (document : JsValue) :
  forall parent t, assignments parent document = Ok t ->
    forall path v, In (path, v) t ->
      exists ks, field_at document ks v /\ scoped_path parent ks = Some path.
Proof.
  induction document as [| | b | n | str | items _ | fields IH]
    using JsValue_deep_ind; intros parent t; simpl;
    try (intros [= <-] ? ? []); try discriminate.
  intros Ht path v Hin.
  destruct (collect_In _ _ _ _ Ht Hin) as ([k value] & t' & Hk & Hf & Hw).
  rewrite Forall_forall in IH. destruct (IH _ Hk) as [Hv Hitems].
  simpl in Hv, Hitems.
  destruct (skipped parent k) eqn:Esk; [inversion Hf; subst; contradiction|].
  destruct (assignments_property_inv _ _ _ _ Hf)
    as (inner & elements & -> & Hinner & Helements).
  destruct Hw as [Hw|Hw].
  { inversion Hw; subst. exists [k]. split; [now constructor|reflexivity]. }
  apply in_app_or in Hw. destruct Hw as [Hw|Hw].
  - destruct (String.eqb (typeOf value) "object");
      [|inversion Hinner; subst; contradiction].
    destruct (Hv _ _ Hinner _ _ Hw) as (ks & Hfield & Hpath).
    exists (k :: ks). split; [|exact Hpath].
    inversion Hfield; subst; eapply field_in_object; eauto.
  - destruct (String.eqb (typeOf value) "array");
      [|inversion Helements; subst; contradiction].
    destruct value as [| | | | | items |];
      try (inversion Helements; subst; contradiction).
    destruct (collect_In _ _ _ _ Helements Hw) as (x & tx & Hx & Hfx & Hwx).
    specialize (Hitems _ eq_refl). rewrite Forall_forall in Hitems.
    destruct (Hitems _ Hx _ _ Hfx _ _ Hwx) as (ks & Hfield & Hpath).
    exists (k :: ks). split; [|exact Hpath].
    inversion Hfield; subst; eapply field_in_element; eauto.
Qed.

(** Every field whose key path is never skipped is logged, when the fold
    completes. *)
Lemma assignments_complete (document : JsValue) (ks : list string)
    (v : JsValue) :
  field_at document ks v ->
  forall parent t, assignments parent document = Ok t ->
    never_skipped parent ks = true ->
    exists path, scoped_path parent ks = Some path /\ In (path, v) t.
Proof.
  induction 1 as [o k v Hk | o o' k ks v Hk _ IH | o o' items k ks v Hk Hx _ IH];
    intros parent t Ht Hns; simpl in Ht, Hns;
    apply andb_prop in Hns; destruct Hns as [Hsk Hns];
    apply negb_true_iff in Hsk;
    destruct (collect_complete _ _ _ _ Ht Hk) as (t' & Hf & Hsub);
    simpl in Hf; rewrite Hsk in Hf;
    destruct (assignments_property_inv _ _ _ _ Hf)
      as (inner & elements & -> & Hinner & Helements).
  - exists (scoped parent k). split; [reflexivity|].
    apply Hsub. now left.
  - simpl in Hinner.
    destruct (IH _ _ Hinner Hns) as (path & Hpath & Hin).
    exists path. split; [exact Hpath|].
    apply Hsub. right. apply in_or_app. now left.
  - simpl in Helements.
    destruct (collect_complete _ _ _ _ Helements Hx) as (tx & Hfx & Hsubx).
    destruct (IH _ _ Hfx Hns) as (path & Hpath & Hin).
    exists path. split; [exact Hpath|].
    apply Hsub. right. apply in_or_app. right. now apply Hsubx.
Qed.


Lemma never_skipped_truthy (ks : list string) :
  forall p, p <> "" -> never_skipped (Some p) ks = true.
Proof.
  induction ks as [|k ks IH]; intros p Hp; cbn [never_skipped]; [reflexivity|].
  rewrite skipped_spec, (parent_truthy_some _ Hp), (scoped_truthy _ _ Hp).
  cbn [negb andb]. apply IH. apply append_nonempty. discriminate.
Qed.

Lemma scoped_path_truthy (ks : list string) :
  forall p, p <> "" -> scoped_path (Some p) ks = Some (dotted (p :: ks)).
Proof.
  induction ks as [|k ks IH]; intros p Hp; [reflexivity|].
  cbn [scoped_path]. rewrite (scoped_truthy _ _ Hp).
  rewrite IH by (apply append_nonempty; discriminate).
  f_equal. unfold dotted. destruct ks as [|k' ks]; [reflexivity|].
  cbn [String.concat]. now rewrite !append_assoc.
Qed.

(** Below a root key other than [""] and ["_id"] nothing is skipped and the
    scoped path is the dotted path. *)
Lemma root_key_paths (k : string) (ks : list string) :
  k <> "" -> k <> "_id" ->
  never_skipped None (k :: ks) = true
  /\ scoped_path None (k :: ks) = Some (dotted (k :: ks)).
Proof.
  intros Hne Hid. cbn [never_skipped scoped_path].
  rewrite skipped_spec. cbn [parent_truthy scoped negb andb].
  destruct (String.eqb "_id" k) eqn:E.
  - apply String.eqb_eq in E. congruence.
  - split; [now apply never_skipped_truthy | now apply scoped_path_truthy].
Qed.

(** ** Lookups after a run of assignments *)

Lemma obj_get_assign_inv (W : list (string * JsValue)) :
  forall (p : Obj) (k : string) (n : JsValue),
    obj_get (obj_assign p W) k = Some n ->
    In (k, n) W \/ obj_get p k = Some n.
Proof.
  induction W as [|[k' v'] W IH]; intros p k n H; [now right|].
  destruct (IH _ _ _ H) as [Hin|Hget]; [left; now right|].
  cbn [fst snd] in Hget. destruct (String.eqb k' k) eqn:E.
  - apply String.eqb_eq in E. subst k'.
    rewrite obj_get_set_same in Hget. inversion Hget; subst. left. now left.
  - rewrite obj_get_set_other in Hget; [now right|].
    intros ->. rewrite String.eqb_refl in E. discriminate.
Qed.

Lemma obj_assign_snoc (p : Obj) (W : list (string * JsValue)) (k : string)
    (v : JsValue) :
  obj_assign p (W ++ [(k, v)])%list = obj_set (obj_assign p W) k v.
Proof. now rewrite obj_assign_app. Qed.

(** A run of assignments decides every key it mentions, whatever the object
    held before. *)
Lemma obj_get_assign_merge (W : list (string * JsValue)) (p : Obj)
    (k : string) :
  obj_get (obj_assign p W) k
  = match obj_get (obj_assign [] W) k with
    | Some n => Some n
    | None => obj_get p k
    end.
Proof.
  induction W as [|[k' v'] W IH] using rev_ind; [reflexivity|].
  rewrite !obj_assign_snoc. destruct (String.eqb k' k) eqn:E.
  - apply String.eqb_eq in E. subst k'. now rewrite !obj_get_set_same.
  - assert (k' <> k) by (intros ->; rewrite String.eqb_refl in E; discriminate).
    now rewrite !obj_get_set_other.
Qed.

Lemma obj_get_assign_In (W : list (string * JsValue)) (p : Obj) (k : string)
    (v : JsValue) :
  In (k, v) W -> exists n, obj_get (obj_assign p W) k = Some n.
Proof.
  induction W as [|[k' v'] W IH] using rev_ind; [contradiction|].
  intros Hin. rewrite obj_assign_snoc. destruct (String.eqb k' k) eqn:E.
  - apply String.eqb_eq in E. subst k'. rewrite obj_get_set_same. eauto.
  - assert (Hne : k' <> k)
      by (intros ->; rewrite String.eqb_refl in E; discriminate).
    rewrite obj_get_set_other by assumption. apply IH.
    apply in_app_or in Hin. destruct Hin as [Hin|[Hin|[]]]; [assumption|].
    inversion Hin; subst. contradiction.
Qed.

(** ** The loops over sampled documents and over array elements *)

Lemma loop_replay (parent : option string) (documents : list JsValue)
    (s p : Obj) :
  properties_of s = Some p ->
  for_of (setSchemaForDocument parent) documents s
  = do t <- collect (assignments parent) documents; Ok (replay s p t).
Proof.
  apply for_of_replay. apply Forall_forall. intros d _ s0 p0.
  apply fold_replay.
Qed.

Lemma loop_inv (parent : option string) (documents : list JsValue)
    (s p s' : Obj) :
  properties_of s = Some p ->
  for_of (setSchemaForDocument parent) documents s = Ok s' ->
  exists t, collect (assignments parent) documents = Ok t
            /\ s' = replay s p t
            /\ properties_of s' = Some (obj_assign p (map node_of t)).
Proof.
  intros Hp H. rewrite (loop_replay _ _ _ _ Hp) in H.
  destruct (collect (assignments parent) documents) as [t|e];
    simpl in H; [|discriminate].
  inversion H; subst. exists t. repeat split. apply replay_properties.
Qed.

Lemma emptySchema_properties : properties_of emptySchema = Some [].
Proof. reflexivity. Qed.

Lemma propertySchemaFor_type (type : string) :
  attribute (propertySchemaFor type) "type"
  = Some (JArr [JStr type; JStr "object"]).
Proof. reflexivity. Qed.


(** ** Root [_id] exclusion and nested inclusion *)

(** A field that the folded documents hold under a root key other than [""]
    and ["_id"] has an entry at its dotted path. *)
Lemma field_entry (result : list JsValue) (schema properties : Obj)
    (document : JsValue) (k : string) (ks : list string) (v : JsValue) :
  foldDocuments result emptySchema = Ok schema ->
  properties_of schema = Some properties ->
  In document result -> k <> "" -> k <> "_id" ->
  field_at document (k :: ks) v ->
  exists node, obj_get properties (dotted (k :: ks)) = Some node.
Proof.
  intros Hfold Hprops Hdoc Hne Hid Hfield.
  destruct (loop_inv _ _ _ _ _ emptySchema_properties Hfold)
    as (t & Ht & _ & Hp).
  rewrite Hprops in Hp. inversion Hp; subst properties.
  destruct (collect_complete _ _ _ _ Ht Hdoc) as (td & Htd & Hsub).
  destruct (root_key_paths k ks Hne Hid) as [Hns Hpath].
  destruct (assignments_complete _ _ _ Hfield _ _ Htd Hns)
    as (path & Hpath' & Hin).
  rewrite Hpath in Hpath'. inversion Hpath'; subst path.
  apply (obj_get_assign_In _ _ _ (propertySchemaFor (typeOf v))).
  apply (in_map node_of _ _ (Hsub _ Hin)).
Qed.

(** C1 (as amended).  Folding sampled documents into the fresh schema never
    creates an entry for the path [_id]; and a field named [_id] that a
    document holds inside a sub-object, or inside an object element of an
    array, below a root key other than [""] and ["_id"], has an entry at its
    dotted path once the fold has completed. *)
Theorem root_id_excluded_nested_id_included
    (result : list JsValue) (schema : Obj) :
  foldDocuments result emptySchema = Ok schema ->
  exists properties,
    properties_of schema = Some properties
    /\ obj_get properties "_id" = None
    /\ forall document k ks v,
         In document result -> k <> "" -> k <> "_id" ->
         field_at document (k :: ks ++ ["_id"]) v ->
         exists node,
           obj_get properties (dotted (k :: ks ++ ["_id"])) = Some node.
Proof.
  intros Hfold.
  destruct (loop_inv _ _ _ _ _ emptySchema_properties Hfold)
    as (t & Ht & _ & Hp).
  exists (obj_assign [] (map node_of t)). split; [exact Hp|]. split.
  - destruct (obj_get (obj_assign [] (map node_of t)) "_id") as [n|] eqn:E;
      [|reflexivity].
    destruct (obj_get_assign_inv _ _ _ _ E) as [Hin|Hget]; [|discriminate].
    apply in_map_iff in Hin. destruct Hin as ([path v] & Heq & Hin).
    inversion Heq; subst.
    destruct (collect_In _ _ _ _ Ht Hin) as (d & td & _ & Htd & Hw).
    exfalso. exact (assignments_paths _ _ _ Htd _ _ Hw eq_refl).
  - intros document k ks v Hdoc Hne Hid Hfield.
    eapply field_entry; eauto.
Qed.

Lemma root_id_excluded_nested_id_included_witness :
  exists schema properties,
    foldDocuments [profileDocument] emptySchema = Ok schema
    /\ properties_of schema = Some properties
    /\ obj_get properties "_id" = None
    /\ exists node, obj_get properties "profile._id" = Some node.
Proof.
  destruct (root_id_excluded_nested_id_included [profileDocument]
              (replay emptySchema []
                 [("profile", JObj [("_id", JNum 2)]); ("profile._id", JNum 2)])
              eq_refl)
    as (properties & Hp & Hroot & Hnested).
  eexists. exists properties. split; [reflexivity|].
  split; [exact Hp|]. split; [exact Hroot|].
  apply (Hnested profileDocument "profile" [] (JNum 2)).
  - left. reflexivity.
  - discriminate.
  - discriminate.
  - eapply field_in_object; [right; left; reflexivity|].
    apply field_here. left. reflexivity.
Defined.

(** Counterexample to C1 as stated: the guard on the root [_id] passes over
    the whole field, so the [_id] nested in its value gets no entry at its
    dotted path. *)
Lemma nested_id_below_root_id_has_no_entry :
  field_at (JObj [("_id", JObj [("_id", JNum 2)])]) ["_id"; "_id"] (JNum 2)
  /\ foldDocuments [JObj [("_id", JObj [("_id", JNum 2)])]] emptySchema
     = Ok emptySchema
  /\ properties_of emptySchema = Some []
  /\ obj_get [] (dotted ["_id"; "_id"]) = None.
Proof.
  repeat split.
  eapply field_in_object; [now left|]. constructor. now left.
Qed.

(** An array that is itself an element of an array is not entered: its
    objects contribute no entry. *)
Example arrays_in_arrays_are_not_entered :
  foldDocuments [nestedArraysDocument] emptySchema
  = Ok (replay emptySchema []
          [("a", JArr [JArr [JObj [("_id", JNum 2)]]])]).
Proof. reflexivity. Qed.

(** Below the root key [""] the parent path is the empty string, which the
    guard takes for the root: a nested [_id] is passed over, and the sibling
    [a] is recorded under the path [a]. *)
Example below_empty_root_key :
  foldDocuments [emptyRootKeyDocument] emptySchema
  = Ok (replay emptySchema []
          [("", JObj [("_id", JNum 2); ("a", JNum 1)]); ("a", JNum 1)]).
Proof. reflexivity. Qed.

(** ** Type-or-object *)

(** C2.  After sampled documents have been folded into the fresh schema,
    every entry of [properties] belongs to a field of one of the documents,
    reached along a key path whose scoped path is the entry's key, and the
    entry's [type] is the two-element list made of the runtime type of that
    field's value and the string ["object"]. *)
Theorem field_type_is_runtime_type_then_object
    (result : list JsValue) (schema : Obj) :
  foldDocuments result emptySchema = Ok schema ->
  exists properties,
    properties_of schema = Some properties
    /\ forall path node,
         obj_get properties path = Some node ->
         exists document ks v,
           In document result
           /\ field_at document ks v
           /\ scoped_path None ks = Some path
           /\ node = propertySchemaFor (typeOf v)
           /\ attribute node "type"
              = Some (JArr [JStr (typeOf v); JStr "object"]).
Proof.
  intros Hfold.
  destruct (loop_inv _ _ _ _ _ emptySchema_properties Hfold)
    as (t & Ht & _ & Hp).
  exists (obj_assign [] (map node_of t)). split; [exact Hp|].
  intros path node Hget.
  destruct (obj_get_assign_inv _ _ _ _ Hget) as [Hin|Hnone]; [|discriminate].
  apply in_map_iff in Hin. destruct Hin as ([path' v] & Heq & Hin).
  inversion Heq; subst.
  destruct (collect_In _ _ _ _ Ht Hin) as (d & td & Hd & Htd & Hw).
  destruct (assignments_sound _ _ _ Htd _ _ Hw) as (ks & Hfield & Hpath).
  exists d, ks, v. repeat split; auto.
Qed.

Lemma field_type_is_runtime_type_then_object_witness :
  exists document ks v,
    In document [tagsDocument]
    /\ field_at document ks v
    /\ scoped_path None ks = Some "tags.x"
    /\ propertySchemaFor "string" = propertySchemaFor (typeOf v)
    /\ attribute (propertySchemaFor "string") "type"
       = Some (JArr [JStr (typeOf v); JStr "object"]).
Proof.
  destruct (field_type_is_runtime_type_then_object [tagsDocument]
              (replay emptySchema []
                 [("tags", JArr [JObj [("x", JNum 1)]; JObj [("x", JStr "s")]]);
                  ("tags.x", JNum 1); ("tags.x", JStr "s")])
              eq_refl)
    as (properties & Hp & Hall).
  apply (Hall "tags.x" (propertySchemaFor "string")).
  rewrite replay_properties in Hp. injection Hp as <-.
  reflexivity.
Defined.

(** ** Overwriting *)



(** The example of the specification: one path [tags.x], of string kind. *)
Example tags_x_is_string :
  exists schema properties,
    foldDocuments [tagsDocument] emptySchema = Ok schema
    /\ properties_of schema = Some properties
    /\ Object_keys properties = ["tags"; "tags.x"]
    /\ obj_get properties "tags.x" = Some (propertySchemaFor "string").
Proof.
  eexists. eexists. split; [reflexivity|]. split; [reflexivity|].
  split; reflexivity.
Qed.

(** ** Operators of a field *)

Lemma expression_keys (type : string) :
  Object_keys (expressionSchema_properties type)
  = (["$eq"; "$gt"; "$gte"; "$lt"; "$lte"; "$ne"; "$in"; "$nin"; "$exists";
      "$type"; "$mod"; "$regex"; "$geoWithin"; "$geoIntersects"; "$near";
      "$nearSphere"]
     ++ (if String.eqb type "array" then ["$all"; "$size"] else [])
     ++ ["$bitsAllSet"; "$bitsAnySet"; "$bitsAllClear"; "$bitsAnyClear"])%list.
Proof.
  unfold expressionSchema_properties.
  destruct (String.eqb type "array"); reflexivity.
Qed.

Lemma Object_keys_app (a b : Obj) :
  Object_keys (a ++ b)%list = (Object_keys a ++ Object_keys b)%list.
Proof. apply map_app. Qed.

Lemma field_operators (type : string) :
  attribute (propertySchemaFor type) "properties"
  = Some (JObj (expressionSchema_properties type
                  ++ [("$not", notSchema type);
                      ("$elemMatch", elemMatchSchema)])%list).
Proof.
  unfold propertySchemaFor, setOperatorProperties, expressionSchema_properties.
  destruct (String.eqb type "array"); reflexivity.
Qed.

(** C4.  The operators attached to the schema of a field contain [$all]
    exactly when the runtime type of the field's value is [array], and
    likewise [$size]. *)
Theorem array_operators_iff_array (value : JsValue) :
  exists operators,
    attribute (propertySchemaFor (typeOf value)) "properties"
    = Some (JObj operators)
    /\ (In "$all" (Object_keys operators) <-> typeOf value = "array")
    /\ (In "$size" (Object_keys operators) <-> typeOf value = "array").
Proof.
  eexists. split; [apply field_operators|].
  rewrite Object_keys_app, (expression_keys (typeOf value)).
  destruct (String.eqb (typeOf value) "array") eqn:E.
  - apply String.eqb_eq in E. rewrite E. simpl. tauto.
  - assert (typeOf value <> "array")
      by (intros H; rewrite H in E; discriminate).
    simpl. split; split; try contradiction;
      intros H'; repeat (destruct H' as [H'|H']; try discriminate);
      contradiction.
Qed.

Lemma array_operators_iff_array_witness :
  exists operators,
    attribute (propertySchemaFor (typeOf (JArr [JStr "x"; JStr "y"])))
      "properties" = Some (JObj operators)
    /\ (In "$all" (Object_keys operators)
        <-> typeOf (JArr [JStr "x"; JStr "y"]) = "array")
    /\ (In "$size" (Object_keys operators)
        <-> typeOf (JArr [JStr "x"; JStr "y"]) = "array").
Proof. exact (array_operators_iff_array (JArr [JStr "x"; JStr "y"])). Defined.

(** C9 (as amended).  Whatever the type, the operators of a field are its
    type-scoped expression operators followed by the two wrappers: [$not], an
    object whose [properties] are those same expression operators, none of
    which is [$not] or [$elemMatch], and [$elemMatch], an object schema with
    no other constraint. *)
Theorem not_and_elemMatch_wrappers (type : string) :
  attribute (propertySchemaFor type) "properties"
  = Some (JObj (expressionSchema_properties type
                  ++ [("$not", notSchema type);
                      ("$elemMatch", elemMatchSchema)])%list)
  /\ attribute (notSchema type) "type" = Some (JStr "object")
  /\ attribute (notSchema type) "properties"
     = Some (JObj (expressionSchema_properties type))
  /\ elemMatchSchema = JObj [("type", JStr "object")]
  /\ ~ In "$not" (Object_keys (expressionSchema_properties type))
  /\ ~ In "$elemMatch" (Object_keys (expressionSchema_properties type)).
Proof.
  split; [apply field_operators|]. repeat split.
  all: rewrite expression_keys; destruct (String.eqb type "array"); simpl;
    intros H; repeat (destruct H as [H|H]; try discriminate); contradiction.
Qed.

Lemma not_and_elemMatch_wrappers_witness :
  attribute (notSchema "array") "properties"
  = Some (JObj (expressionSchema_properties "array"))
  /\ ~ In "$not" (Object_keys (expressionSchema_properties "array")).
Proof.
  destruct (not_and_elemMatch_wrappers "array") as (_ & _ & H & _ & Hn & _).
  split; assumption.
Defined.

(** Counterexample to C9 as stated: the operators of a string field include
    [$not] and [$elemMatch], the operators inside its [$not] do not, so the
    two sets differ. *)
Lemma not_lacks_the_wrappers :
  exists operators inner,
    attribute (propertySchemaFor "string") "properties" = Some (JObj operators)
    /\ obj_get operators "$not" = Some (notSchema "string")
    /\ attribute (notSchema "string") "properties" = Some (JObj inner)
    /\ In "$not" (Object_keys operators)
    /\ In "$elemMatch" (Object_keys operators)
    /\ ~ In "$not" (Object_keys inner)
    /\ ~ In "$elemMatch" (Object_keys inner).
Proof.
  eexists. eexists. split; [reflexivity|]. split; [reflexivity|].
  split; [reflexivity|]. split; [vm_compute; tauto|].
  split; [vm_compute; tauto|].
  split; vm_compute; intros H;
    repeat (destruct H as [H|H]; try discriminate); contradiction.
Qed.

(** ** Sampling *)

Lemma readNext_callback {R : Type} (callback : list JsValue -> R)
    (cursor : Cursor) :
  forall inReaction result batchSize,
    readNext inReaction result cursor batchSize callback
    = match readNext inReaction result cursor batchSize (fun r => r) with
      | Invoked b r rest => Invoked b (callback r) rest
      | NotInvoked e => NotInvoked e
      end.
Proof.
  induction cursor as [|doc rest IH|e|e]; intros b result n; simpl;
    destruct (Nat.eqb (length result) n); auto.
Qed.

Lemma readNext_in_reaction (cursor : Cursor) :
  forall result batchSize b sample rest,
    readNext true result cursor batchSize (fun r => r) = Invoked b sample rest ->
    b = true.
Proof.
  induction cursor as [|doc rest' IH|e|e]; intros result n b sample rest;
    simpl; destruct (Nat.eqb (length result) n);
    try (intros [= <- _ _]; reflexivity); try discriminate.
  apply IH.
Qed.

Lemma sampled_in_reaction (cursor : Cursor) (n : nat) b sample rest :
  sampled cursor (S n) = Invoked b sample rest -> b = true.
Proof.
  unfold sampled. destruct cursor as [|doc rest'|e|e]; simpl;
    try (intros [= <- _ _]; reflexivity); try discriminate.
  apply readNext_in_reaction.
Qed.

(** The loop stops at the batch size without touching the rest of the
    cursor, or at exhaustion. *)
Lemma readNext_feed {R : Type} (callback : list JsValue -> R)
    (batchSize : nat) (docs : list JsValue) :
  forall result, length result < batchSize ->
    readNext true result (feed docs Exhausted) batchSize callback
    = Invoked true
        (callback (result ++ firstn (batchSize - length result) docs)%list)
        (feed (skipn (batchSize - length result) docs) Exhausted).
Proof.
  induction docs as [|doc docs IH]; intros result Hlt; simpl.
  - destruct (Nat.eqb_spec (length result) batchSize) as [E|_]; [lia|].
    now rewrite firstn_nil, skipn_nil, List.app_nil_r.
  - destruct (Nat.eqb_spec (length result) batchSize) as [E|_]; [lia|].
    destruct (Nat.eq_dec (length (result ++ [doc])%list) batchSize) as [E|Hne].
    + rewrite length_app in E. simpl in E.
      replace (batchSize - length result) with 1 by lia. simpl.
      destruct docs as [|doc' docs]; simpl;
        rewrite length_app; simpl;
        (destruct (Nat.eqb_spec (length result + 1) batchSize); [|lia]);
        reflexivity.
    + rewrite IH by (rewrite length_app in *; simpl in *; lia).
      rewrite length_app. simpl.
      replace (batchSize - length result)
        with (S (batchSize - (length result + 1))) by lia.
      simpl. now rewrite <- app_assoc.
Qed.

(** C5.  Reading from a cursor that holds [docs] and is then exhausted, with
    an empty accumulator and a positive batch size, [readNext] invokes the
    callback once, with the first [batchSize] documents (all of them when
    there are fewer), and leaves the documents after them unread; with more
    than 10 documents and batch size 10, the list has exactly 10 documents. *)
Theorem readNext_samples_at_most_batch {R : Type}
    (callback : list JsValue -> R) (batchSize : nat) (docs : list JsValue) :
  0 < batchSize ->
  readNext false [] (feed docs Exhausted) batchSize callback
  = Invoked true (callback (firstn batchSize docs))
      (feed (skipn batchSize docs) Exhausted)
  /\ length (firstn batchSize docs) = Nat.min batchSize (length docs)
  /\ (batchSize = 10 -> 10 < length docs ->
      length (firstn batchSize docs) = 10).
Proof.
  intros Hpos. split; [|split].
  - destruct docs as [|doc docs]; simpl.
    + destruct batchSize; [lia|]. reflexivity.
    + destruct batchSize as [|n]; [lia|]. simpl.
      destruct n as [|n]; simpl.
      * destruct docs; reflexivity.
      * rewrite (readNext_feed callback (S (S n)) docs [doc]) by (simpl; lia).
        reflexivity.
  - apply length_firstn.
  - intros -> Hlen. rewrite length_firstn. lia.
Qed.

Lemma readNext_samples_at_most_batch_witness :
  0 < 10
  /\ readNext false [] (feed twelveDocuments Exhausted) 10 (fun r => r)
     = Invoked true (firstn 10 twelveDocuments)
         (feed [JNum 11; JNum 12] Exhausted)
  /\ length (firstn 10 twelveDocuments) = 10.
Proof.
  destruct (readNext_samples_at_most_batch (fun r => r) 10 twelveDocuments)
    as (Hread & _ & Hten).
  - lia.
  - split; [lia|]. split; [exact Hread|]. apply Hten; [reflexivity|].
    unfold twelveDocuments. rewrite length_map. simpl. lia.
Defined.

(** ** Serialized text is JSON *)

Lemma append_empty_r (s : string) : s ++ "" = s.
Proof. induction s as [|c s IH]; simpl; congruence. Qed.

Lemma escape_char_chars (c : ascii) (rest : string) :
  JsonChars rest -> JsonChars (escape_char c ++ rest).
Proof.
  intros Hrest.
  destruct c as [[] [] [] [] [] [] [] []];
    match goal with
    | |- JsonChars (escape_char ?c ++ _) =>
        let e := eval vm_compute in (escape_char c) in
        change (escape_char c) with e
    end;
    cbn [append];
    first
      [ apply chars_plain;
        [ vm_compute; lia | vm_compute; discriminate
        | vm_compute; discriminate | exact Hrest ]
      | match goal with
        | |- JsonChars (String _ (String "u" (String ?a (String ?b (String ?c (String ?d _)))))) =>
            apply (chars_unicode a b c d rest); [reflexivity .. | exact Hrest]
        | |- JsonChars (String _ (String ?x _)) =>
            apply (chars_escape x rest); [cbn; tauto | exact Hrest]
        end ].
Qed.

Lemma escape_chars (s : string) : JsonChars (escape s).
Proof.
  induction s as [|c s IH]; simpl; [constructor|].
  now apply escape_char_chars.
Qed.

Lemma quote_text (s : string) : JsonText (quote s).
Proof. apply json_string, escape_chars. Qed.

Lemma string_of_uint_digits (d : Decimal.uint) :
  all_digits (DecimalString.NilEmpty.string_of_uint d) = true.
Proof. induction d; simpl; auto. Qed.

Lemma to_uint_normal (p : positive) :
  Decimal.nzhead (Pos.to_uint p) = Pos.to_uint p.
Proof.
  pose proof (DecimalPos.Unsigned.to_of (Pos.to_uint p)) as H.
  rewrite DecimalPos.Unsigned.of_to in H. simpl in H.
  pose proof (DecimalPos.Unsigned.to_uint_nonzero p) as Hnz.
  unfold Decimal.unorm in H.
  destruct (Decimal.nzhead (Pos.to_uint p)) eqn:E; now rewrite H.
Qed.

Lemma positive_text_int (p : positive) :
  json_int (DecimalString.NilEmpty.string_of_uint (Pos.to_uint p)) = true.
Proof.
  pose proof (to_uint_normal p) as Hn.
  pose proof (DecimalPos.Unsigned.to_uint_nonnil p) as Hnil.
  pose proof (string_of_uint_digits (Pos.to_uint p)) as Hd.
  destruct (Pos.to_uint p) as [|d|d|d|d|d|d|d|d|d|d];
    try (simpl in *; exact Hd).
  - now elim Hnil.
  - exfalso. exact (DecimalFacts.nzhead_nonzero _ _ Hn).
Qed.

Lemma number_text_number (n : Z) : JsonNumber (number_text n).
Proof.
  destruct n as [|p|p]; simpl.
  - apply (json_number "" "0" "" ""); auto.
  - rewrite <- (append_empty_r (DecimalString.NilEmpty.string_of_uint _)).
    apply (json_number "" _ "" ""); auto using positive_text_int.
  - rewrite <- (append_empty_r (DecimalString.NilEmpty.string_of_uint _)).
    apply (json_number "-" _ "" ""); auto using positive_text_int.
Qed.

Lemma join_elements (texts : list string) :
  texts <> [] -> Forall JsonText texts -> JsonElements (join "," texts).
Proof.
  intros Hne Hall. induction Hall as [|x l Hx Hl IH]; [contradiction|].
  destruct l as [|y l]; simpl.
  - now constructor.
  - apply elements_more; [assumption|]. apply IH. discriminate.
Qed.

Lemma join_members (texts : list string) :
  texts <> [] -> Forall MemberText texts -> JsonMembers (join "," texts).
Proof.
  intros Hne Hall. induction Hall as [|x l Hx Hl IH]; [contradiction|].
  destruct l as [|y l]; simpl.
  - destruct Hx. now constructor.
  - destruct Hx. apply members_more; auto. apply IH. discriminate.
Qed.

Lemma quote_member (k : string) (v : string) :
  JsonText v -> MemberText (quote k ++ ":" ++ v).
Proof.
  intros Hv. unfold quote. rewrite !append_assoc.
  constructor; [apply escape_chars | assumption].
Qed.

(** Whatever the value, its serialization is a JSON text. *)
Lemma stringify_is_json (v : JsValue) : JsonText (stringify v).
Proof.
  induction v as [| | [] | n | s | items IH | fields IH] using JsValue_ind;
    cbn [stringify]; try (now constructor).
  - apply json_num, number_text_number.
  - apply quote_text.
  - destruct items as [|x items]; [apply json_empty_array|].
    apply json_array, join_elements; [discriminate|].
    apply Forall_map. exact IH.
  - match goal with |- JsonText ("{" ++ join "," ?l ++ "}") =>
      assert (Hall : Forall MemberText l); [|destruct l eqn:El] end.
    + apply Forall_flat_map. eapply Forall_impl; [|exact IH].
      intros [k value] Hv. simpl in Hv.
      destruct (is_undefined value); constructor; [|constructor].
      now apply quote_member.
    + apply json_empty_object.
    + apply json_object, join_members; [discriminate|assumption].
Qed.

(** ** URIs *)

Lemma substring_all (s : string) : String.substring 0 (String.length s) s = s.
Proof. induction s as [|c s IH]; simpl; congruence. Qed.

Lemma prefix_split (p s : string) :
  String.prefix p s = true ->
  s = p ++ String.substring (String.length p)
             (String.length s - String.length p) s.
Proof.
  revert s. induction p as [|c p IH]; intros s H; simpl.
  - now rewrite Nat.sub_0_r, substring_all.
  - destruct s as [|c' s]; simpl in H; [discriminate|].
    destruct (Ascii.ascii_dec c c') as [->|Hne]; [|discriminate].
    simpl. f_equal. now apply IH.
Qed.

Lemma prefix_append (p s : string) : String.prefix p (p ++ s) = true.
Proof.
  induction p as [|c p IH]; simpl; [now destruct s|].
  destruct (Ascii.ascii_dec c c); [assumption|contradiction].
Qed.

Lemma substring_append (p s : string) :
  String.substring (String.length p)
    (String.length (p ++ s) - String.length p) (p ++ s) = s.
Proof.
  induction p as [|c p IH]; simpl.
  - now rewrite Nat.sub_0_r, substring_all.
  - exact IH.
Qed.

Lemma resolveSchema_collection (this : SchemaService) (name : string) :
  resolveSchema this (queryCollectionSchema name)
  = _resolveQueryCollectionSchema this name (queryCollectionSchema name).
Proof.
  unfold resolveSchema, queryCollectionSchema.
  now rewrite prefix_append, substring_append.
Qed.

Lemma resolveQueryCollectionSchema_defined (this : SchemaService)
    (name schemaUri : string) :
  _resolveQueryCollectionSchema this name schemaUri <> ReturnsUndefined.
Proof.
  unfold _resolveQueryCollectionSchema.
  destruct (_db this) as [db|]; [|discriminate].
  destruct (collection db name) as [c|e]; [|discriminate].
  destruct (find c); discriminate.
Qed.

(** C8.  [resolveSchema] returns [undefined] for every URI that does not
    start with ["mongo://query/"], the generic document URI among them; for
    a URI that starts with the prefix it does not return [undefined]: the
    URI is [queryCollectionSchema name] for the rest [name] of the URI, and
    the schema of collection [name] is synthesized. *)
Theorem resolveSchema_owns_collection_uris
    (this : SchemaService) (uri : string) :
  (String.prefix "mongo://query/" uri = false ->
   resolveSchema this uri = ReturnsUndefined)
  /\ resolveSchema this queryDocumentUri = ReturnsUndefined
  /\ (String.prefix "mongo://query/" uri = true ->
      resolveSchema this uri <> ReturnsUndefined
      /\ exists name,
           uri = queryCollectionSchema name
           /\ resolveSchema this uri
              = _resolveQueryCollectionSchema this name uri).
Proof.
  split; [|split].
  - unfold resolveSchema. now intros ->.
  - reflexivity.
  - unfold resolveSchema. intros E. rewrite E. split.
    + apply resolveQueryCollectionSchema_defined.
    + eexists. split; [|reflexivity]. exact (prefix_split _ _ E).
Qed.

Lemma resolveSchema_owns_collection_uris_witness :
  (String.prefix "mongo://query/" "mongo://query.json" = false
   /\ resolveSchema {| _db := None |} "mongo://query.json" = ReturnsUndefined)
  /\ (String.prefix "mongo://query/" "mongo://query/users" = true
      /\ resolveSchema {| _db := None |} "mongo://query/users"
         <> ReturnsUndefined).
Proof.
  split.
  - split; [reflexivity|].
    destruct (resolveSchema_owns_collection_uris {| _db := None |}
                "mongo://query.json") as [H _].
    apply H. reflexivity.
  - split; [reflexivity|].
    destruct (resolveSchema_owns_collection_uris {| _db := None |}
                "mongo://query/users") as (_ & _ & H).
    apply H. reflexivity.
Defined.

(** ** Failures *)

(** C7 (as amended).  When opening the collection throws, be it the lookup
    of the collection or the creation of its cursor, [resolveSchema] throws
    that same error to its caller and returns no promise; when a read of the
    opened cursor is rejected before the sample is complete, the promise it
    returns never settles.  Neither way is a schema produced. *)
Theorem open_failure_is_thrown (this : SchemaService) (db : Db)
    (name : string) (e : JsError) :
  _db this = Some db ->
  (collection db name = Throw e
   \/ (exists c, collection db name = Ok c /\ find c = Throw e) ->
   resolveSchema this (queryCollectionSchema name) = Throws e)
  /\ (forall c cursor,
        collection db name = Ok c -> find c = Ok cursor ->
        sampled cursor 10 = NotInvoked e ->
        resolveSchema this (queryCollectionSchema name)
        = ReturnsPromise Pending).
Proof.
  intros Hdb. rewrite resolveSchema_collection.
  unfold _resolveQueryCollectionSchema. rewrite Hdb. split.
  - intros [H|(c & Hc & Hf)].
    + now rewrite H.
    + now rewrite Hc, Hf.
  - intros c cursor Hc Hf Hs. rewrite Hc, Hf. f_equal.
    unfold sampleAndResolve. rewrite readNext_callback.
    unfold sampled in Hs. now rewrite Hs.
Qed.

Lemma open_failure_is_thrown_witness :
  resolveSchema {| _db := Some unreachableDb |} (queryCollectionSchema "users")
  = Throws (DriverError "connection closed")
  /\ resolveSchema
       {| _db := Some (dbOf (NextRejects (DriverError "cursor killed"))) |}
       (queryCollectionSchema "users")
     = ReturnsPromise Pending.
Proof.
  split.
  - destruct (open_failure_is_thrown {| _db := Some unreachableDb |}
                unreachableDb "users" (DriverError "connection closed")
                eq_refl) as [H _].
    apply H. left. reflexivity.
  - destruct (open_failure_is_thrown
                {| _db := Some (dbOf (NextRejects (DriverError "cursor killed"))) |}
                (dbOf (NextRejects (DriverError "cursor killed"))) "users"
                (DriverError "cursor killed") eq_refl) as [_ H].
    apply (H {| collectionName := "users";
                find := Ok (NextRejects (DriverError "cursor killed")) |}
             (NextRejects (DriverError "cursor killed")));
      reflexivity.
Defined.

(** Counterexample to C7 as stated: a failure to open the collection leaves
    [resolveSchema] by a thrown exception, and a rejected first read leaves
    its promise pending; neither is a rejected promise. *)
Lemma open_failure_is_not_a_rejection :
  resolveSchema {| _db := Some unreachableDb |} "mongo://query/users"
  = Throws (DriverError "connection closed")
  /\ resolveSchema
       {| _db := Some (dbOf (HasNextRejects (DriverError "connection closed"))) |}
       "mongo://query/users"
     = ReturnsPromise Pending
  /\ (forall e, Throws (DriverError "connection closed")
                <> ReturnsPromise (Rejected e))
  /\ (forall e, ReturnsPromise Pending <> ReturnsPromise (Rejected e)).
Proof. repeat split; discriminate. Qed.

(** No call of [resolveSchema] returns a promise that ends up rejected: the
    sample size is positive, so the callback only ever runs inside a
    reaction, and the reject function of the promise is never used. *)
Lemma resolution_is_never_rejected (this : SchemaService) (uri : string)
    (e : JsError) :
  resolveSchema this uri <> ReturnsPromise (Rejected e).
Proof.
  unfold resolveSchema, _resolveQueryCollectionSchema.
  destruct (String.prefix "mongo://query/" uri); [|discriminate].
  destruct (_db this) as [db|]; [|discriminate].
  destruct (collection db _) as [c|e']; [|discriminate].
  destruct (find c) as [cursor|e']; [|discriminate].
  unfold sampleAndResolve. rewrite readNext_callback.
  destruct (readNext false [] cursor 10 (fun r => r))
    as [b sample rest|e'] eqn:Hs; [|discriminate].
  rewrite (sampled_in_reaction cursor 9 b sample rest Hs).
  destruct (resolveCallback uri sample); discriminate.
Qed.

(** ** The resolved schema *)

Lemma assign_properties_ok (kvs : list (string * JsValue)) :
  forall s p, properties_of s = Some p ->
    assign_properties s kvs
    = Ok (obj_set s "properties" (JObj (obj_assign p kvs))).
Proof.
  unfold assign_properties.
  induction kvs as [|[k v] kvs IH]; intros s p Hp; simpl.
  - f_equal. symmetry. apply obj_set_get_id. now apply properties_of_get.
  - rewrite (assign_property_ok _ _ _ _ Hp). simpl.
    rewrite (IH _ _ (properties_of_set _ _)).
    now rewrite obj_set_set_same.
Qed.

Lemma obj_get_assign_absent (W : list (string * JsValue)) (p : Obj)
    (k : string) :
  existsb (String.eqb k) (map fst W) = false ->
  obj_get (obj_assign p W) k = obj_get p k.
Proof.
  intros Hk. rewrite obj_get_assign_merge.
  destruct (obj_get (obj_assign [] W) k) as [n|] eqn:E; [|reflexivity].
  destruct (obj_get_assign_inv _ _ _ _ E) as [Hin|Hget]; [|discriminate].
  assert (Ht : existsb (String.eqb k) (map fst W) = true).
  { apply existsb_exists. exists k. split; [|apply String.eqb_refl].
    apply (in_map fst _ _ Hin). }
  congruence.
Qed.

(** With pairwise distinct keys, every assignment of a run survives it. *)
Lemma obj_get_assign_distinct (W : list (string * JsValue)) :
  forall (p : Obj) (k : string) (v : JsValue),
    nodupb (map fst W) = true -> In (k, v) W ->
    obj_get (obj_assign p W) k = Some v.
Proof.
  induction W as [|[k' v'] W IH]; intros p k v Hnd Hin; [contradiction|].
  simpl in Hnd. apply andb_prop in Hnd. destruct Hnd as [Hk' Hnd].
  apply negb_true_iff in Hk'. destruct Hin as [Heq|Hin].
  - inversion Heq; subst.
    change (obj_assign p ((k, v) :: W)) with (obj_assign (obj_set p k v) W).
    now rewrite obj_get_assign_absent, obj_get_set_same.
  - now apply IH.
Qed.

Lemma resolveCallback_ok (schemaUri : string) (sample : list JsValue)
    (folded pf : Obj) :
  foldDocuments sample emptySchema = Ok folded ->
  properties_of folded = Some pf ->
  resolveCallback schemaUri sample
  = Ok (JStr (stringify
                (JObj (obj_set folded "properties"
                         (JObj (obj_assign pf
                                  (globalOperators
                                   ++ logicalOperators schemaUri)%list)))))).
Proof.
  intros Hfold Hp. unfold resolveCallback.
  change (for_of (setSchemaForDocument None) sample
            [("type", JStr "object"); ("properties", JObj [])])
    with (foldDocuments sample emptySchema).
  rewrite Hfold. cbn [bind].
  unfold setGlobalOperatorProperties, setLogicalOperatorProperties.
  rewrite (assign_properties_ok _ _ _ Hp). cbn [bind].
  rewrite (assign_properties_ok _ _ _ (properties_of_set _ _)). cbn [bind].
  now rewrite obj_set_set_same, obj_assign_app.
Qed.

(** C6 (as amended).  When the collection opens, the sample is read without
    a rejected read and the fold of the sample completes, [resolveSchema]
    returns a promise fulfilled with the serialization of the schema; that
    text is JSON, the root [properties] of the schema hold every static
    operator ([$text], [$where], [$comment], [$or], [$and], [$nor]) with its
    catalogued schema, and for an empty sample they hold nothing else. *)
Theorem resolved_schema_is_json_with_static_operators
    (this : SchemaService) (db : Db) (name : string) (c : Collection)
    (cursor rest : Cursor) (inReaction : bool) (sample : list JsValue)
    (folded : Obj) :
  _db this = Some db ->
  collection db name = Ok c ->
  find c = Ok cursor ->
  sampled cursor 10 = Invoked inReaction sample rest ->
  foldDocuments sample emptySchema = Ok folded ->
  exists schema properties,
    resolveSchema this (queryCollectionSchema name)
    = ReturnsPromise (Fulfilled (JStr (stringify (JObj schema))))
    /\ JsonText (stringify (JObj schema))
    /\ properties_of schema = Some properties
    /\ (forall k v,
          In (k, v) (globalOperators
                     ++ logicalOperators (queryCollectionSchema name))%list ->
          obj_get properties k = Some v)
    /\ (sample = [] -> Object_keys properties = staticKeys).
Proof.
  intros Hdb Hc Hf Hs Hfold.
  destruct (loop_inv _ _ _ _ _ emptySchema_properties Hfold)
    as (t & Ht & _ & Hp).
  set (uri := queryCollectionSchema name).
  set (statics := (globalOperators ++ logicalOperators uri)%list).
  exists (obj_set folded "properties"
            (JObj (obj_assign (obj_assign [] (map node_of t)) statics))),
    (obj_assign (obj_assign [] (map node_of t)) statics).
  split; [|split; [|split; [|split]]].
  - unfold uri. rewrite resolveSchema_collection.
    unfold _resolveQueryCollectionSchema. rewrite Hdb, Hc, Hf. f_equal.
    unfold sampleAndResolve, sampled in *. rewrite readNext_callback, Hs.
    now rewrite (resolveCallback_ok _ _ _ _ Hfold Hp).
  - apply stringify_is_json.
  - apply properties_of_set.
  - intros k v Hin. now apply obj_get_assign_distinct.
  - intros ->. simpl in Ht. inversion Ht; subst t. reflexivity.
Qed.

Lemma resolved_schema_is_json_with_static_operators_witness :
  exists schema properties,
    resolveSchema {| _db := Some (dbOf Exhausted) |}
      (queryCollectionSchema "users")
    = ReturnsPromise (Fulfilled (JStr (stringify (JObj schema))))
    /\ JsonText (stringify (JObj schema))
    /\ properties_of schema = Some properties
    /\ Object_keys properties = staticKeys.
Proof.
  destruct (resolved_schema_is_json_with_static_operators
              {| _db := Some (dbOf Exhausted) |} (dbOf Exhausted) "users"
              {| collectionName := "users"; find := Ok Exhausted |}
              Exhausted Exhausted true [] emptySchema
              eq_refl eq_refl eq_refl eq_refl eq_refl)
    as (schema & properties & H1 & H2 & H3 & _ & H5).
  exists schema, properties. auto.
Defined.

(** Counterexample to C6 as stated: the first read of the collection is
    rejected, and [resolveSchema] delivers no text at all. *)
Lemma rejected_read_delivers_no_text :
  resolveSchema
    {| _db := Some (dbOf (HasNextRejects (DriverError "connection closed"))) |}
    (queryCollectionSchema "users")
  = ReturnsPromise Pending
  /\ forall text, ReturnsPromise Pending <> ReturnsPromise (Fulfilled text).
Proof. split; [reflexivity|discriminate]. Qed.

(** ** Null-valued fields *)




(** Whatever a resolution is fulfilled with is the JSON text of a schema
    whose root [properties] hold the static operators. *)
Lemma fulfilled_value_is_schema_text (this : SchemaService) (uri : string)
    (value : JsValue) :
  resolveSchema this uri = ReturnsPromise (Fulfilled value) ->
  exists schema properties,
    value = JStr (stringify (JObj schema))
    /\ JsonText (stringify (JObj schema))
    /\ properties_of schema = Some properties
    /\ forall k v,
         In (k, v) (globalOperators ++ logicalOperators uri)%list ->
         obj_get properties k = Some v.
Proof.
  unfold resolveSchema, _resolveQueryCollectionSchema.
  destruct (String.prefix "mongo://query/" uri); [|discriminate].
  destruct (_db this) as [db|]; [|discriminate].
  destruct (collection db _) as [c|e]; [|discriminate].
  destruct (find c) as [cursor|e]; [|discriminate].
  unfold sampleAndResolve. rewrite readNext_callback.
  destruct (readNext false [] cursor 10 (fun r => r)) as [b sample rest|e];
    [|discriminate].
  destruct (foldDocuments sample emptySchema) as [folded|e] eqn:Hfold.
  - destruct (loop_inv _ _ _ _ _ emptySchema_properties Hfold)
      as (t & _ & _ & Hp).
    rewrite (resolveCallback_ok _ _ _ _ Hfold Hp). intros Hv.
    set (statics := (globalOperators ++ logicalOperators uri)%list) in *.
    exists (obj_set folded "properties"
              (JObj (obj_assign (obj_assign [] (map node_of t)) statics))),
      (obj_assign (obj_assign [] (map node_of t)) statics).
    split; [congruence|].
    split; [apply stringify_is_json|].
    split; [apply properties_of_set|].
    intros k v Hin. now apply obj_get_assign_distinct.
  - unfold resolveCallback.
    change (for_of (setSchemaForDocument None) sample
              [("type", JStr "object"); ("properties", JObj [])])
      with (foldDocuments sample emptySchema).
    rewrite Hfold. cbn [bind]. destruct b; discriminate.
Qed.

(** ** Enumerating entries is enumerating keys *)

Lemma nodupb_get (fields : Obj) (k : string) (v : JsValue) :
  nodupb (map fst fields) = true -> In (k, v) fields ->
  obj_get fields k = Some v.
Proof.
  induction fields as [|[k' v'] fields IH]; simpl; [contradiction|].
  intros Hnd Hin. apply andb_prop in Hnd. destruct Hnd as [Hk' Hnd].
  apply negb_true_iff in Hk'. destruct Hin as [Heq|Hin].
  - inversion Heq; subst. now rewrite String.eqb_refl.
  - destruct (String.eqb k' k) eqn:E; [|auto].
    apply String.eqb_eq in E. subst k'.
    assert (existsb (String.eqb k) (map fst fields) = true); [|congruence].
    apply existsb_exists. exists k. split; [|apply String.eqb_refl].
    apply (in_map fst _ _ Hin).
Qed.

Lemma entries_as_keys (parent : option string) (fields : Obj) :
  forall (l : Obj) (schema : Obj),
    (forall k v, In (k, v) l -> obj_get fields k = Some v) ->
    for_of
      (fun (kv : string * JsValue) schema =>
         let (property, value) := kv in
         if skipped parent property then Ok schema
         else setSchemaForDocumentProperty_body setSchemaForDocument
                parent property value schema)
      l schema
    = for_of
        (fun property schema =>
           if skipped parent property then Ok schema
           else setSchemaForDocumentProperty parent property (JObj fields)
                  schema)
        (map fst l) schema.
Proof.
  induction l as [|[k v] l IH]; intros schema Hget; [reflexivity|].
  cbn [for_of map fst]. unfold setSchemaForDocumentProperty at 1.
  rewrite (Hget k v) by now left.
  destruct (skipped parent k).
  - cbn [bind]. apply IH. intros k' v' Hin. apply Hget. now right.
  - destruct (setSchemaForDocumentProperty_body _ _ _ _ _); cbn [bind];
      [|reflexivity].
    apply IH. intros k' v' Hin. apply Hget. now right.
Qed.

(** For an object with pairwise distinct keys, the fold over its entries is
    the loop of the source over [Object.keys(document)] that reads
    [document[property]] in [setSchemaForDocumentProperty]. *)
Lemma setSchemaForDocument_keys (parent : option string) (fields : Obj)
    (schema : Obj) :
  nodupb (map fst fields) = true ->
  setSchemaForDocument parent (JObj fields) schema
  = for_of
      (fun property schema =>
         if skipped parent property then Ok schema
         else setSchemaForDocumentProperty parent property (JObj fields) schema)
      (Object_keys fields) schema.
Proof.
  intros Hnd. unfold Object_keys. rewrite <- entries_as_keys.
  - reflexivity.
  - intros k v. now apply nodupb_get.
Qed.

(** * Further properties of the service *)

(** ** Registration and resolution *)

(** X1.  When the enumeration of the collections succeeds, [registerSchemas]
    answers with one configuration per collection, in the order of the
    enumeration; resolving the URI of any of them through the service it
    leaves behind does not return [undefined] and synthesizes the schema of
    the very collection the URI was built from, against the database just
    registered, while none of its file-match URIs is resolved. *)
Theorem registered_uris_resolve
    (this : SchemaService) (db : Db) (cs : list Collection) :
  collections db = Ok cs ->
  exists configs,
    snd (registerSchemas this db) = Ok configs
    /\ map uri configs
       = map (fun c => queryCollectionSchema (collectionName c)) cs
    /\ forall cfg, In cfg configs ->
         (exists c,
             In c cs
             /\ resolveSchema (fst (registerSchemas this db)) (uri cfg)
                = _resolveQueryCollectionSchema {| _db := Some db |}
                    (collectionName c) (uri cfg))
         /\ resolveSchema (fst (registerSchemas this db)) (uri cfg)
            <> ReturnsUndefined
         /\ forall f, In f (fileMatch cfg) ->
              resolveSchema (fst (registerSchemas this db)) f
              = ReturnsUndefined.
Proof.
  intros Hcs. unfold registerSchemas. cbn [fst snd]. rewrite Hcs. cbn [bind].
  eexists. split; [reflexivity|]. split.
  - rewrite map_map. reflexivity.
  - intros cfg Hin. apply in_map_iff in Hin. destruct Hin as (c & <- & Hc).
    cbn [uri fileMatch]. split; [|split].
    + exists c. split; [exact Hc|]. apply resolveSchema_collection.
    + rewrite resolveSchema_collection.
      apply resolveQueryCollectionSchema_defined.
    + intros f [<-|[]]. reflexivity.
Qed.

Lemma registered_uris_resolve_witness :
  exists configs,
    snd (registerSchemas {| _db := None |}
           {| collection := fun name =>
                Ok {| collectionName := name; find := Ok Exhausted |};
              collections :=
                Ok [{| collectionName := "users"; find := Ok Exhausted |};
                    {| collectionName := "orders"; find := Ok Exhausted |}] |})
    = Ok configs
    /\ map uri configs = ["mongo://query/users"; "mongo://query/orders"].
Proof.
  destruct (registered_uris_resolve {| _db := None |}
              {| collection := fun name =>
                   Ok {| collectionName := name; find := Ok Exhausted |};
                 collections :=
                   Ok [{| collectionName := "users"; find := Ok Exhausted |};
                       {| collectionName := "orders"; find := Ok Exhausted |}] |}
              _ eq_refl)
    as (configs & Hreg & Huris & _).
  exists configs. split; [exact Hreg|exact Huris].
Defined.

(** X2.  Distinct collection names have distinct schema URIs, and no
    collection, whatever its name, has the generic document URI as its schema
    URI. *)
Theorem collection_uris_do_not_collide (a b : string) :
  (queryCollectionSchema a = queryCollectionSchema b -> a = b)
  /\ queryCollectionSchema a <> queryDocumentUri.
Proof.
  unfold queryCollectionSchema, queryDocumentUri. split.
  - cbn [append]. intros H. now injection H.
  - cbn [append]. intros H. injection H as H. destruct a; discriminate.
Qed.

Lemma collection_uris_do_not_collide_witness :
  queryCollectionSchema "users" = queryCollectionSchema "users"
  /\ "users" = "users".
Proof.
  split; [reflexivity|].
  destruct (collection_uris_do_not_collide "users" "users") as [H _].
  apply H. reflexivity.
Defined.

(** X3.  Before any database has been registered, resolving a collection
    URI throws a TypeError to the caller: no promise is returned. *)
Theorem resolution_before_registration_throws
    (this : SchemaService) (name : string) :
  _db this = None ->
  resolveSchema this (queryCollectionSchema name) = Throws TypeError.
Proof.
  intros H. rewrite resolveSchema_collection.
  unfold _resolveQueryCollectionSchema. now rewrite H.
Qed.

Lemma resolution_before_registration_throws_witness :
  resolveSchema {| _db := None |} "mongo://query/users" = Throws TypeError.
Proof.
  apply (resolution_before_registration_throws {| _db := None |} "users").
  reflexivity.
Defined.

(** ** What a fold keeps *)

Lemma Object_keys_set (o : Obj) (k : string) (v : JsValue) :
  Object_keys (obj_set o k v)
  = (Object_keys o
     ++ (if existsb (String.eqb k) (Object_keys o) then [] else [k]))%list.
Proof.
  unfold Object_keys. induction o as [|[k' v'] o IH]; simpl; [reflexivity|].
  rewrite (String.eqb_sym k k'). destruct (String.eqb k' k); simpl.
  - now rewrite List.app_nil_r.
  - now rewrite IH.
Qed.


Lemma Object_keys_set_present (o : Obj) (k : string) (v w : JsValue) :
  obj_get o k = Some w -> Object_keys (obj_set o k v) = Object_keys o.
Proof.
  unfold Object_keys. induction o as [|[k' v'] o IH]; simpl; [discriminate|].
  destruct (String.eqb k' k); simpl; [reflexivity|].
  intros H. now rewrite IH.
Qed.



(** ** Folding again *)

Lemma nodupb_set (o : Obj) (k : string) (v : JsValue) :
  nodupb (Object_keys o) = true -> nodupb (Object_keys (obj_set o k v)) = true.
Proof.
  intros H. rewrite Object_keys_set.
  destruct (existsb (String.eqb k) (Object_keys o)) eqn:E;
    [now rewrite List.app_nil_r|].
  revert H E. generalize (Object_keys o) as l.
  induction l as [|x l IH]; simpl; [reflexivity|].
  intros H E. apply andb_prop in H. destruct H as [Hx Hl].
  apply orb_false_elim in E. destruct E as [Ekx El].
  rewrite (IH Hl El), andb_true_r.
  rewrite existsb_app. simpl. rewrite (String.eqb_sym x k), Ekx.
  apply negb_true_iff in Hx. now rewrite Hx.
Qed.

Lemma nodupb_assign (W : list (string * JsValue)) :
  forall p, nodupb (Object_keys p) = true ->
    nodupb (Object_keys (obj_assign p W)) = true.
Proof.
  induction W as [|[k v] W IH]; intros p H; [exact H|].
  apply (IH (obj_set p k v)). now apply nodupb_set.
Qed.

Lemma obj_get_absent (o : Obj) (k : string) :
  existsb (String.eqb k) (Object_keys o) = false -> obj_get o k = None.
Proof.
  unfold Object_keys. induction o as [|[k' v'] o IH]; simpl; [reflexivity|].
  intros H. apply orb_false_elim in H. destruct H as [Hk Ho].
  rewrite (String.eqb_sym k' k), Hk. auto.
Qed.

(** Two objects with the same keys in the same order, pairwise distinct, and
    the same value under every key are the same object. *)
Lemma obj_ext (o1 : Obj) :
  forall o2 : Obj,
    nodupb (Object_keys o1) = true ->
    Object_keys o1 = Object_keys o2 ->
    (forall k, obj_get o1 k = obj_get o2 k) ->
    o1 = o2.
Proof.
  induction o1 as [|[k v] o1 IH]; intros [|[k2 v2] o2] Hnd Hkeys Hget;
    try discriminate; [reflexivity|].
  simpl in Hkeys. injection Hkeys as <- Hkeys.
  simpl in Hnd. apply andb_prop in Hnd. destruct Hnd as [Hk Hnd].
  apply negb_true_iff in Hk.
  pose proof (Hget k) as Hv. simpl in Hv. rewrite String.eqb_refl in Hv.
  injection Hv as <-. f_equal. apply IH; auto.
  intros k'. specialize (Hget k'). simpl in Hget.
  destruct (String.eqb k k') eqn:E; [|exact Hget].
  apply String.eqb_eq in E. subst k'.
  rewrite (obj_get_absent _ _ Hk).
  change (map fst o1) with (Object_keys o1) in Hkeys.
  change (map fst o2) with (Object_keys o2) in Hkeys.
  rewrite Hkeys in Hk. now rewrite (obj_get_absent _ _ Hk).
Qed.

Lemma Object_keys_assign_present (W : list (string * JsValue)) :
  forall p,
    (forall k v, In (k, v) W -> exists w, obj_get p k = Some w) ->
    Object_keys (obj_assign p W) = Object_keys p.
Proof.
  induction W as [|[k v] W IH]; intros p Hin; [reflexivity|].
  change (obj_assign p ((k, v) :: W)) with (obj_assign (obj_set p k v) W).
  destruct (Hin k v (or_introl eq_refl)) as (w & Hw).
  rewrite IH, (Object_keys_set_present _ _ _ _ Hw); [reflexivity|].
  intros k' v' Hin'. destruct (Hin k' v' (or_intror Hin')) as (w' & Hw').
  destruct (String.eqb k k') eqn:E.
  - apply String.eqb_eq in E. subst k'. rewrite obj_get_set_same. eauto.
  - rewrite obj_get_set_other; [eauto|].
    intros ->. rewrite String.eqb_refl in E. discriminate.
Qed.

(** X8.  Folding is idempotent: when documents (or array elements) have been
    folded into a schema whose entries have pairwise distinct paths, folding
    the same ones once more completes and leaves the schema exactly as it
    is. *)
Theorem folding_again_changes_nothing
    (parent : option string) (documents : list JsValue)
    (schema properties once : Obj) :
  properties_of schema = Some properties ->
  nodupb (Object_keys properties) = true ->
  for_of (setSchemaForDocument parent) documents schema = Ok once ->
  for_of (setSchemaForDocument parent) documents once = Ok once.
Proof.
  intros Hp Hnd Hfold.
  destruct (loop_inv _ _ _ _ _ Hp Hfold) as (t & Ht & -> & Hp1).
  rewrite (loop_replay _ _ _ _ Hp1), Ht. cbn [bind]. f_equal.
  unfold replay in *. set (W := map node_of t) in *. set (p1 := obj_assign properties W) in *.
  apply obj_set_get_id. rewrite (properties_of_get _ _ Hp1). do 2 f_equal.
  symmetry. apply obj_ext.
  - unfold p1. now do 2 apply nodupb_assign.
  - apply Object_keys_assign_present.
    intros k v Hin. unfold p1. eapply obj_get_assign_In; eauto.
  - intros k. rewrite (obj_get_assign_merge W p1 k).
    unfold p1. rewrite (obj_get_assign_merge W properties k).
    now destruct (obj_get (obj_assign [] W) k).
Qed.

Lemma folding_again_changes_nothing_witness :
  for_of (setSchemaForDocument None) [tagsDocument; profileDocument]
    (replay emptySchema []
       [("tags", JArr [JObj [("x", JNum 1)]; JObj [("x", JStr "s")]]);
        ("tags.x", JNum 1); ("tags.x", JStr "s");
        ("profile", JObj [("_id", JNum 2)]); ("profile._id", JNum 2)])
  = Ok (replay emptySchema []
          [("tags", JArr [JObj [("x", JNum 1)]; JObj [("x", JStr "s")]]);
           ("tags.x", JNum 1); ("tags.x", JStr "s");
           ("profile", JObj [("_id", JNum 2)]); ("profile._id", JNum 2)]).
Proof.
  apply (folding_again_changes_nothing None [tagsDocument; profileDocument]
           emptySchema []);
    vm_compute; reflexivity.
Defined.

(** ** When a fold completes *)

Lemma collect_total {A B : Type} (f : A -> Result (list B)) (xs : list A) :
  Forall (fun x => exists t, f x = Ok t) xs -> exists t, collect f xs = Ok t.
Proof.
  induction 1 as [|x xs (t & Hx) _ (t' & IH)]; simpl; [eauto|].
  rewrite Hx, IH. simpl. eauto.
Qed.

Lemma assignments_null_free (document : JsValue) :
  null_free document = true ->
  forall parent, exists t, assignments parent document = Ok t.
Proof.
  induction document as [| | b | n | str | items _ | fields IH]
    using JsValue_deep_ind; intros Hnf parent; simpl; eauto;
    [discriminate|].
  apply collect_total. simpl in Hnf. rewrite forallb_forall in Hnf.
  rewrite Forall_forall in *. intros [k value] Hin.
  destruct (IH _ Hin) as [Hv Hitems]. specialize (Hnf _ Hin).
  simpl in Hv, Hitems, Hnf.
  destruct (skipped parent k); [eauto|].
  unfold assignments_property.
  destruct (String.eqb (typeOf value) "object") eqn:Eobj.
  - destruct (Hv Hnf (Some (scoped parent k))) as (t1 & ->). cbn [bind].
    destruct value; try discriminate; simpl; eauto.
  - cbn [bind]. destruct (String.eqb (typeOf value) "array"); [|simpl; eauto].
    destruct value as [| | | | | items |]; try (simpl; eauto).
    destruct (collect_total (assignments (Some (scoped parent k))) items)
      as (t2 & ->); [|simpl; eauto].
    simpl in Hnf. rewrite forallb_forall in Hnf.
    specialize (Hitems _ eq_refl). rewrite Forall_forall in *.
    intros x Hx. apply (Hitems x Hx). auto.
Qed.

Lemma readNext_start {R : Type} (callback : list JsValue -> R)
    (cursor : Cursor) (n : nat) :
  readNext false [] cursor (S n) callback
  = readNext true [] cursor (S n) callback.
Proof. destruct cursor; reflexivity. Qed.

(** Reading documents that fit in the batch leaves the loop where it would
    start with them already accumulated. *)
Lemma readNext_consumes {R : Type} (callback : list JsValue -> R)
    (batchSize : nat) (rest : Cursor) (docs : list JsValue) :
  forall result, length result + length docs <= batchSize ->
    readNext true result (feed docs rest) batchSize callback
    = readNext true (result ++ docs)%list rest batchSize callback.
Proof.
  induction docs as [|doc docs IH]; intros result Hle; simpl.
  - now rewrite List.app_nil_r.
  - simpl in Hle.
    destruct (Nat.eqb_spec (length result) batchSize) as [E|_]; [lia|].
    rewrite IH by (rewrite length_app; simpl; lia).
    now rewrite <- app_assoc.
Qed.

Lemma readNext_full {R : Type} (callback : list JsValue -> R) (b : bool)
    (result : list JsValue) (cursor : Cursor) :
  readNext b result cursor (length result) callback
  = Invoked b (callback result) cursor.
Proof. destruct cursor; simpl; now rewrite Nat.eqb_refl. Qed.

Lemma readNext_fills {R : Type} (callback : list JsValue -> R)
    (batchSize : nat) (rest : Cursor) (docs result : list JsValue) :
  length result + length docs = batchSize ->
  readNext true result (feed docs rest) batchSize callback
  = Invoked true (callback (result ++ docs)%list) rest.
Proof.
  intros Hlen. rewrite readNext_consumes by lia.
  replace batchSize with (length (result ++ docs)%list)
    by (rewrite length_app; exact Hlen).
  apply readNext_full.
Qed.

Lemma feed_app (docs later : list JsValue) (rest : Cursor) :
  feed (docs ++ later) rest = feed docs (feed later rest).
Proof. unfold feed. apply fold_right_app. Qed.

(** What is sampled from a cursor that yields [docs] first. *)
Lemma sampled_feed (docs : list JsValue) (rest : Cursor) (n : nat) :
  sampled (feed docs rest) (S n)
  = if Nat.leb (S n) (length docs)
    then Invoked true (firstn (S n) docs) (feed (skipn (S n) docs) rest)
    else readNext true docs rest (S n) (fun r => r).
Proof.
  unfold sampled. rewrite readNext_start.
  destruct (Nat.leb_spec (S n) (length docs)) as [Hle|Hlt].
  - rewrite <- (firstn_skipn (S n) docs) at 1. rewrite feed_app.
    rewrite readNext_fills; [reflexivity|].
    rewrite length_firstn. cbn [length Nat.add]. lia.
  - rewrite readNext_consumes by (cbn [length Nat.add]; lia). reflexivity.
Qed.

Lemma null_free_fold (sample : list JsValue) :
  forallb null_free sample = true ->
  exists folded, foldDocuments sample emptySchema = Ok folded.
Proof.
  intros Hnf. unfold foldDocuments.
  rewrite (loop_replay _ _ _ _ emptySchema_properties).
  destruct (collect_total (assignments None) sample) as (t & ->);
    [|simpl; eauto].
  rewrite forallb_forall in Hnf. apply Forall_forall.
  intros d Hd. apply assignments_null_free. auto.
Qed.

Lemma forallb_firstn {A : Type} (f : A -> bool) (n : nat) (l : list A) :
  forallb f l = true -> forallb f (firstn n l) = true.
Proof.
  rewrite !forallb_forall. intros H x Hx. apply H.
  rewrite <- (firstn_skipn n l). apply in_or_app. now left.
Qed.

(** X5.  When the collection opens on a cursor that yields its documents
    without a rejected read and none of the documents holds [null] anywhere,
    the promise [resolveSchema] returns is fulfilled, with a JSON text. *)
Theorem null_free_collection_resolves
    (this : SchemaService) (db : Db) (name : string) (c : Collection)
    (docs : list JsValue) :
  _db this = Some db ->
  collection db name = Ok c ->
  find c = Ok (feed docs Exhausted) ->
  forallb null_free docs = true ->
  exists text,
    resolveSchema this (queryCollectionSchema name)
    = ReturnsPromise (Fulfilled (JStr text))
    /\ JsonText text.
Proof.
  intros Hdb Hc Hf Hnf. rewrite resolveSchema_collection.
  unfold _resolveQueryCollectionSchema. rewrite Hdb, Hc, Hf.
  unfold sampleAndResolve. rewrite readNext_callback.
  fold (sampled (feed docs Exhausted) 10). rewrite sampled_feed.
  assert (Hsample : exists sample rest,
             (if Nat.leb 10 (length docs)
              then Invoked true (firstn 10 docs) (feed (skipn 10 docs) Exhausted)
              else readNext true docs Exhausted 10 (fun r => r))
             = Invoked true sample rest
             /\ forallb null_free sample = true).
  { destruct (Nat.leb_spec 10 (length docs)) as [Hle|Hlt].
    - eexists. eexists. split; [reflexivity|]. now apply forallb_firstn.
    - exists docs, Exhausted. split; [|exact Hnf]. simpl.
      destruct (Nat.eqb_spec (length docs) 10); [lia|reflexivity]. }
  destruct Hsample as (sample & rest & -> & Hs).
  destruct (null_free_fold sample Hs) as (folded & Hfold).
  destruct (loop_inv _ _ _ _ _ emptySchema_properties Hfold)
    as (t & _ & _ & Hp).
  rewrite (resolveCallback_ok _ _ _ _ Hfold Hp).
  eexists. split; [reflexivity|]. apply stringify_is_json.
Qed.

Lemma null_free_collection_resolves_witness :
  exists text,
    resolveSchema {| _db := Some (dbOf (feed [profileDocument; tagsDocument] Exhausted)) |}
      (queryCollectionSchema "users")
    = ReturnsPromise (Fulfilled (JStr text))
    /\ JsonText text.
Proof.
  apply (null_free_collection_resolves
           {| _db := Some (dbOf (feed [profileDocument; tagsDocument] Exhausted)) |}
           (dbOf (feed [profileDocument; tagsDocument] Exhausted)) "users"
           {| collectionName := "users";
              find := Ok (feed [profileDocument; tagsDocument] Exhausted) |}
           [profileDocument; tagsDocument]);
    reflexivity.
Defined.

(** ** Null elements *)

(** A reached field whose own log cannot be completed makes the fold
    throw. *)
Lemma assignments_failing_field (document : JsValue) (ks : list string)
    (v : JsValue) :
  field_at document ks v ->
  (forall parent property t,
      assignments_property assignments parent property v <> Ok t) ->
  forall parent, never_skipped parent ks = true ->
    assignments parent document = Throw TypeError.
Proof.
  induction 1 as [o k v Hk | o o' k ks v Hk _ IH | o o' items k ks v Hk Hx _ IH];
    intros Hfail parent Hns; simpl in Hns;
    apply andb_prop in Hns; destruct Hns as [Hsk Hns];
    apply negb_true_iff in Hsk;
    destruct (assignments parent (JObj o)) as [t|e] eqn:Ht;
    try (now rewrite (assignments_error _ _ _ Ht));
    simpl in Ht;
    destruct (collect_complete _ _ _ _ Ht Hk) as (t' & Hf & _);
    simpl in Hf; rewrite Hsk in Hf.
  - elim (Hfail _ _ _ Hf).
  - destruct (assignments_property_inv _ _ _ _ Hf)
      as (inner & elements & _ & Hinner & _).
    rewrite (IH Hfail _ Hns) in Hinner. discriminate.
  - destruct (assignments_property_inv _ _ _ _ Hf)
      as (inner & elements & _ & _ & Helements).
    change (collect (assignments (Some (scoped parent k))) items = Ok elements)
      in Helements.
    destruct (collect_complete _ _ _ _ Helements Hx) as (tx & Hfx & _).
    rewrite (IH Hfail _ Hns) in Hfx. discriminate.
Qed.

(** X6.  A [null] among the elements of an array makes the fold throw just
    as a null-valued field does: when a sampled document holds, below a root
    key other than [""] and ["_id"], an array-valued field with a [null]
    element, folding the sample throws a TypeError whatever the accumulator
    holds. *)
Theorem null_element_makes_fold_throw
    (sample : list JsValue) (document : JsValue) (k : string)
    (ks : list string) (items : list JsValue) :
  In document sample -> k <> "" -> k <> "_id" ->
  field_at document (k :: ks) (JArr items) ->
  In JNull items ->
  forall schema properties,
    properties_of schema = Some properties ->
    foldDocuments sample schema = Throw TypeError.
Proof.
  intros Hdoc Hne Hid Hfield Hnull schema properties Hp.
  destruct (root_key_paths k ks Hne Hid) as [Hns _].
  assert (Hthrow : assignments None document = Throw TypeError).
  { apply (assignments_failing_field _ _ _ Hfield); [|exact Hns].
    intros parent property t Hf.
    destruct (assignments_property_inv _ _ _ _ Hf)
      as (inner & elements & _ & _ & Helements).
    change (collect (assignments (Some (scoped parent property))) items
            = Ok elements) in Helements.
    destruct (collect_complete _ _ _ _ Helements Hnull) as (tx & Hfx & _).
    discriminate. }
  unfold foldDocuments. rewrite (loop_replay _ _ _ _ Hp).
  destruct (collect (assignments None) sample) as [t|e] eqn:E.
  - destruct (collect_complete _ _ _ _ E Hdoc) as (t' & Ht' & _). congruence.
  - cbn [bind]. f_equal. eapply collect_error; [|exact E].
    apply Forall_forall. intros d _ e'. apply assignments_error.
Qed.

Lemma null_element_makes_fold_throw_witness :
  foldDocuments [JObj [("name", JStr "Bob"); ("tags", JArr [JStr "x"; JNull])]]
    emptySchema
  = Throw TypeError.
Proof.
  apply (null_element_makes_fold_throw
           [JObj [("name", JStr "Bob"); ("tags", JArr [JStr "x"; JNull])]]
           (JObj [("name", JStr "Bob"); ("tags", JArr [JStr "x"; JNull])])
           "tags" [] [JStr "x"; JNull]) with (properties := []).
  - left. reflexivity.
  - discriminate.
  - discriminate.
  - apply field_here. right. left. reflexivity.
  - right. left. reflexivity.
  - reflexivity.
Defined.

(** ** The entries of a folded schema *)









(** ** The operator catalogue of a field *)

Lemma obj_get_app_found (o1 o2 : Obj) (k : string) (v : JsValue) :
  obj_get o1 k = Some v -> obj_get (o1 ++ o2)%list k = Some v.
Proof.
  induction o1 as [|[k' v'] o1 IH]; simpl; [discriminate|].
  destruct (String.eqb k' k); auto.
Qed.

Lemma obj_get_app (o1 o2 : Obj) (k : string) :
  obj_get (o1 ++ o2)%list k
  = match obj_get o1 k with
    | Some v => Some v
    | None => obj_get o2 k
    end.
Proof.
  induction o1 as [|[k' v'] o1 IH]; simpl; [reflexivity|].
  destruct (String.eqb k' k); auto.
Qed.

Lemma existsb_not_In (k : string) (l : list string) :
  ~ In k l -> existsb (String.eqb k) l = false.
Proof.
  intros H. destruct (existsb (String.eqb k) l) eqn:E; [|reflexivity].
  apply existsb_exists in E. destruct E as (x & Hx & Hk).
  apply String.eqb_eq in Hk. subst x. contradiction.
Qed.

(** The expression operators in the order of their assignments. *)
Lemma expression_list (type : string) :
  expressionSchema_properties type
  = (comparisonOperators type ++ elementOperators ++ evaluationOperators
     ++ geospatialOperators
     ++ (if String.eqb type "array" then arrayOperators else [])
     ++ bitOperators)%list.
Proof.
  unfold expressionSchema_properties.
  destruct (String.eqb type "array"); reflexivity.
Qed.

(** X9.  The six comparison operators of a field ([$eq], [$gt], [$gte],
    [$lt], [$lte], [$ne]) are typed with the inferred type of the field,
    directly under the field and again inside its [$not]; every other
    expression operator has the same schema whatever the type of the
    field. *)
Theorem comparison_operators_carry_the_field_type (type op : string) :
  (In op comparisonKeys ->
   exists operators node inner innerNode,
     attribute (propertySchemaFor type) "properties" = Some (JObj operators)
     /\ obj_get operators op = Some node
     /\ attribute node "type" = Some (JStr type)
     /\ attribute (notSchema type) "properties" = Some (JObj inner)
     /\ obj_get inner op = Some innerNode
     /\ attribute innerNode "type" = Some (JStr type))
  /\ (~ In op comparisonKeys ->
      forall node,
        obj_get (expressionSchema_properties type) op = Some node ->
        obj_get (expressionSchema_properties "array") op = Some node).
Proof.
  split.
  - intros Hop.
    assert (Hexpr : exists description,
               obj_get (expressionSchema_properties type) op
               = Some (described type description)).
    { unfold comparisonKeys in Hop. unfold expressionSchema_properties.
      repeat (destruct Hop as [<-|Hop]); try contradiction;
        destruct (String.eqb type "array"); eexists; reflexivity. }
    destruct Hexpr as (description & Hexpr).
    exists (expressionSchema_properties type
            ++ [("$not", notSchema type); ("$elemMatch", elemMatchSchema)])%list,
      (described type description), (expressionSchema_properties type),
      (described type description).
    split; [apply field_operators|].
    split; [now apply obj_get_app_found|].
    split; [reflexivity|]. split; [reflexivity|]. split; [exact Hexpr|].
    reflexivity.
  - intros Hop node.
    assert (Hcomparison : obj_get (comparisonOperators type) op
                          = obj_get (comparisonOperators "array") op).
    { assert (Hne : forall k, In k comparisonKeys -> String.eqb k op = false).
      { intros k Hk. destruct (String.eqb_spec k op) as [->|]; [|reflexivity].
        contradiction. }
      unfold comparisonOperators. cbn [obj_get].
      rewrite !Hne by (unfold comparisonKeys; simpl; tauto). reflexivity. }
    rewrite !expression_list, !obj_get_app, Hcomparison.
    destruct (obj_get (comparisonOperators "array") op); [auto|].
    destruct (obj_get elementOperators op); [auto|].
    destruct (obj_get evaluationOperators op); [auto|].
    destruct (obj_get geospatialOperators op); [auto|].
    destruct (String.eqb type "array"); [auto|].
    cbn [String.eqb Ascii.eqb Bool.eqb obj_get].
    unfold arrayOperators at 1. cbn [obj_get].
    destruct (String.eqb_spec "$all" op) as [<-|_]; [discriminate|].
    destruct (String.eqb_spec "$size" op) as [<-|_]; [discriminate|].
    auto.
Qed.

Lemma comparison_operators_carry_the_field_type_witness :
  exists operators node inner innerNode,
    attribute (propertySchemaFor "number") "properties" = Some (JObj operators)
    /\ obj_get operators "$gt" = Some node
    /\ attribute node "type" = Some (JStr "number")
    /\ attribute (notSchema "number") "properties" = Some (JObj inner)
    /\ obj_get inner "$gt" = Some innerNode
    /\ attribute innerNode "type" = Some (JStr "number").
Proof.
  destruct (comparison_operators_carry_the_field_type "number" "$gt") as [H _].
  apply H. right. left. reflexivity.
Defined.

(** X10.  [setOperatorProperties] replaces whatever [properties] the schema
    had by the catalogue of the type, keeps every other attribute, and so
    yields the same schema when it is applied after an earlier application
    for any type. *)
Theorem setOperatorProperties_replaces_properties
    (type earlier : string) (schema : Obj) :
  obj_get (setOperatorProperties type schema) "properties"
  = attribute (propertySchemaFor type) "properties"
  /\ (forall k, k <> "properties" ->
        obj_get (setOperatorProperties type schema) k = obj_get schema k)
  /\ setOperatorProperties type (setOperatorProperties earlier schema)
     = setOperatorProperties type schema.
Proof.
  assert (Hshape : forall t s,
             setOperatorProperties t s
             = obj_set s "properties"
                 (JObj (obj_set
                          (obj_set (expressionSchema_properties t) "$not"
                             (notSchema t))
                          "$elemMatch" elemMatchSchema))).
  { intros t s. unfold setOperatorProperties.
    destruct (falsy (obj_get s "properties")); [|reflexivity].
    apply obj_set_set_same. }
  split; [|split].
  - rewrite Hshape. unfold propertySchemaFor. cbn [attribute].
    now rewrite Hshape, !obj_get_set_same.
  - intros k Hk. rewrite Hshape. apply obj_get_set_other. congruence.
  - rewrite !Hshape. apply obj_set_set_same.
Qed.

Lemma setOperatorProperties_replaces_properties_witness :
  obj_get
    (setOperatorProperties "string"
       [("type", JArr [JStr "string"; JStr "object"]);
        ("properties", JObj [("stale", JNull)])])
    "type"
  = Some (JArr [JStr "string"; JStr "object"]).
Proof.
  destruct (setOperatorProperties_replaces_properties "string" "number"
              [("type", JArr [JStr "string"; JStr "object"]);
               ("properties", JObj [("stale", JNull)])])
    as (_ & H & _).
  rewrite H; [reflexivity|discriminate].
Defined.

(** ** The sampling loop on any cursor *)

Lemma readNext_prefix (cursor : Cursor) :
  forall b result n b' sample rest,
    readNext b result cursor n (fun r => r) = Invoked b' sample rest ->
    exists docs,
      sample = (result ++ docs)%list
      /\ cursor = feed docs rest
      /\ (length sample = n \/ rest = Exhausted).
Proof.
  assert (Hstop : forall (b b' : bool) (result sample : list JsValue)
                    (c rest : Cursor) (n : nat),
             Invoked b result c = Invoked b' sample rest ->
             length result = n \/ c = Exhausted ->
             exists docs,
               sample = (result ++ docs)%list
               /\ c = feed docs rest
               /\ (length sample = n \/ rest = Exhausted)).
  { intros b b' result sample c rest n H Hor. injection H as _ <- <-.
    exists []. rewrite List.app_nil_r. auto. }
  induction cursor as [|doc cursor IH|e|e]; intros b result n b' sample rest;
    simpl; destruct (Nat.eqb_spec (length result) n) as [E|E];
    try discriminate;
    try (intros H; apply (Hstop _ _ _ _ _ _ _ H); now auto).
  intros H. destruct (IH _ _ _ _ _ _ H) as (docs & -> & -> & Hor).
  exists (doc :: docs). rewrite <- app_assoc in *. cbn [app] in *.
  repeat split; auto.
Qed.

(** X11.  Whenever [readNext], started on an empty accumulator, invokes its
    callback, the list it hands over is a prefix of what the cursor holds, in
    cursor order, no longer than the batch size; the cursor is left at the
    first document after it, and the loop has stopped because the list is
    full or because the cursor is exhausted. *)
Theorem sample_is_a_cursor_prefix
    (cursor rest : Cursor) (batchSize : nat) (inReaction : bool)
    (sample : list JsValue) :
  sampled cursor batchSize = Invoked inReaction sample rest ->
  cursor = feed sample rest
  /\ length sample <= batchSize
  /\ (length sample = batchSize \/ rest = Exhausted).
Proof.
  intros H. unfold sampled in H.
  assert (Hlen : forall c b result n b' s r,
             length result <= n ->
             readNext b result c n (fun x => x) = Invoked b' s r ->
             length s <= n).
  { induction c as [|doc c IH|e|e]; intros b result n b' s r Hle; simpl;
      destruct (Nat.eqb_spec (length result) n) as [E|E];
      try discriminate; try (intros [= _ <- _]; lia).
    apply IH. rewrite length_app. simpl. lia. }
  destruct (readNext_prefix _ _ _ _ _ _ _ H) as (docs & Hs & Hc & Hstop).
  simpl in Hs. subst docs. split; [exact Hc|]. split; [|exact Hstop].
  eapply Hlen; [|exact H]. simpl. lia.
Qed.

Lemma sample_is_a_cursor_prefix_witness :
  feed twelveDocuments (NextRejects (DriverError "cursor killed"))
  = feed (firstn 10 twelveDocuments)
      (feed [JNum 11; JNum 12] (NextRejects (DriverError "cursor killed")))
  /\ length (firstn 10 twelveDocuments) <= 10.
Proof.
  destruct (sample_is_a_cursor_prefix
              (feed twelveDocuments (NextRejects (DriverError "cursor killed")))
              (feed [JNum 11; JNum 12] (NextRejects (DriverError "cursor killed")))
              10 true (firstn 10 twelveDocuments) eq_refl)
    as (Hcursor & Hle & _).
  split; [exact Hcursor|exact Hle].
Defined.



(** X13.  The loop stops on a full batch by strict equality only: started
    with more results than the batch size, [readNext] reads the cursor to its
    end and hands over everything. *)
Theorem overfull_accumulator_drains_the_cursor {R : Type}
    (callback : list JsValue -> R) (batchSize : nat) (docs : list JsValue) :
  forall (inReaction : bool) (result : list JsValue),
    batchSize < length result ->
    readNext inReaction result (feed docs Exhausted) batchSize callback
    = Invoked true (callback (result ++ docs)%list) Exhausted.
Proof.
  induction docs as [|doc docs IH]; intros b result Hlt; simpl;
    destruct (Nat.eqb_spec (length result) batchSize) as [E|_]; try lia.
  - now rewrite List.app_nil_r.
  - rewrite IH by (rewrite length_app; simpl; lia).
    now rewrite <- app_assoc.
Qed.

Lemma overfull_accumulator_drains_the_cursor_witness :
  readNext false [JNum 1; JNum 2] (feed [JNum 3; JNum 4; JNum 5] Exhausted) 1
    (fun r => length r)
  = Invoked true 5 Exhausted.
Proof.
  apply (overfull_accumulator_drains_the_cursor (fun r => length r) 1
           [JNum 3; JNum 4; JNum 5] false [JNum 1; JNum 2]).
  simpl. lia.
Defined.

(** ** The sample cap, seen from the resolution *)

(** X14.  A resolution depends on the first ten documents of the cursor
    only: whatever the cursor holds or does after them, a later document with
    a [null], a rejected read, the promise settles as it does for the cursor
    that yields these ten and is then exhausted. *)
Theorem resolution_reads_ten_documents
    (docs later : list JsValue) (rest : Cursor) (schemaUri : string) :
  length docs = 10 ->
  sampleAndResolve (feed (docs ++ later) rest) schemaUri
  = sampleAndResolve (feed docs Exhausted) schemaUri
  /\ forall u,
       resolveSchema {| _db := Some (dbOf (feed (docs ++ later) rest)) |} u
       = resolveSchema {| _db := Some (dbOf (feed docs Exhausted)) |} u.
Proof.
  intros Hlen.
  assert (Hsame : forall uri',
             sampleAndResolve (feed (docs ++ later) rest) uri'
             = sampleAndResolve (feed docs Exhausted) uri').
  { intros uri'. unfold sampleAndResolve.
    rewrite !(readNext_callback (resolveCallback uri')).
    fold (sampled (feed (docs ++ later) rest) 10).
    fold (sampled (feed docs Exhausted) 10).
    rewrite !sampled_feed, length_app, Hlen. cbn [Nat.leb Nat.add].
    rewrite firstn_app, Hlen. cbn [Nat.sub].
    rewrite <- Hlen, firstn_all. cbn [firstn]. now rewrite List.app_nil_r. }
  split; [apply Hsame|].
  intros u. unfold resolveSchema, _resolveQueryCollectionSchema.
  destruct (String.prefix "mongo://query/" u); [|reflexivity].
  cbn [_db dbOf collection find]. f_equal. apply Hsame.
Qed.

Lemma resolution_reads_ten_documents_witness :
  sampleAndResolve
    (feed (firstn 10 twelveDocuments ++ [JObj [("nickname", JNull)]])
       (NextRejects (DriverError "cursor killed")))
    "mongo://query/users"
  = sampleAndResolve (feed (firstn 10 twelveDocuments) Exhausted)
      "mongo://query/users".
Proof.
  destruct (resolution_reads_ten_documents (firstn 10 twelveDocuments)
              [JObj [("nickname", JNull)]]
              (NextRejects (DriverError "cursor killed"))
              "mongo://query/users" eq_refl) as [H _].
  exact H.
Defined.

(** ** The static overlay *)

(** X15.  In the schema a resolution is fulfilled with, the root [type] is
    ['object'] and every entry of [properties] whose path is not the name of
    a static operator is the entry the fold of the sample recorded: the
    overlay of the static operators touches their six names only. *)
Theorem static_overlay_keeps_field_entries
    (this : SchemaService) (db : Db) (name : string) (c : Collection)
    (cursor rest : Cursor) (inReaction : bool) (sample : list JsValue)
    (folded recorded : Obj) :
  _db this = Some db ->
  collection db name = Ok c ->
  find c = Ok cursor ->
  sampled cursor 10 = Invoked inReaction sample rest ->
  foldDocuments sample emptySchema = Ok folded ->
  properties_of folded = Some recorded ->
  exists schema properties,
    resolveSchema this (queryCollectionSchema name)
    = ReturnsPromise (Fulfilled (JStr (stringify (JObj schema))))
    /\ obj_get schema "type" = Some (JStr "object")
    /\ properties_of schema = Some properties
    /\ forall path,
         ~ In path staticKeys ->
         obj_get properties path = obj_get recorded path.
Proof.
  intros Hdb Hc Hf Hs Hfold Hp.
  set (uri := queryCollectionSchema name).
  set (statics := (globalOperators ++ logicalOperators uri)%list).
  exists (obj_set folded "properties" (JObj (obj_assign recorded statics))),
    (obj_assign recorded statics).
  split; [|split; [|split]].
  - unfold uri. rewrite resolveSchema_collection.
    unfold _resolveQueryCollectionSchema. rewrite Hdb, Hc, Hf. f_equal.
    unfold sampleAndResolve, sampled in *. rewrite readNext_callback, Hs.
    now rewrite (resolveCallback_ok _ _ _ _ Hfold Hp).
  - rewrite obj_get_set_other by discriminate.
    destruct (loop_inv _ _ _ _ _ emptySchema_properties Hfold)
      as (t & _ & -> & _).
    unfold replay. now rewrite obj_get_set_other by discriminate.
  - apply properties_of_set.
  - intros path Hpath. apply obj_get_assign_absent.
    now apply existsb_not_In.
Qed.

Lemma static_overlay_keeps_field_entries_witness :
  exists schema properties,
    resolveSchema {| _db := Some (dbOf (feed [tagsDocument] Exhausted)) |}
      (queryCollectionSchema "users")
    = ReturnsPromise (Fulfilled (JStr (stringify (JObj schema))))
    /\ obj_get schema "type" = Some (JStr "object")
    /\ properties_of schema = Some properties
    /\ obj_get properties "tags.x" = Some (propertySchemaFor "string").
Proof.
  destruct (static_overlay_keeps_field_entries
              {| _db := Some (dbOf (feed [tagsDocument] Exhausted)) |}
              (dbOf (feed [tagsDocument] Exhausted)) "users"
              {| collectionName := "users";
                 find := Ok (feed [tagsDocument] Exhausted) |}
              (feed [tagsDocument] Exhausted) Exhausted true [tagsDocument]
              (replay emptySchema []
                 [("tags", JArr [JObj [("x", JNum 1)]; JObj [("x", JStr "s")]]);
                  ("tags.x", JNum 1); ("tags.x", JStr "s")])
              (obj_assign []
                 (map node_of
                    [("tags", JArr [JObj [("x", JNum 1)]; JObj [("x", JStr "s")]]);
                     ("tags.x", JNum 1); ("tags.x", JStr "s")]))
              eq_refl eq_refl eq_refl eq_refl eq_refl eq_refl)
    as (schema & properties & Hres & Htype & Hp & Hkeep).
  exists schema, properties. repeat split; auto.
  rewrite Hkeep; [reflexivity|].
  unfold staticKeys. simpl. intros H.
  repeat (destruct H as [H|H]; [discriminate|]). exact H.
Defined.

(** ** Folding below a path *)

Lemma assignments_below (document : JsValue) :
  forall p t, p <> "" -> assignments (Some p) document = Ok t ->
    forall path v, In (path, v) t -> exists rest, path = p ++ "." ++ rest.
Proof.
  induction document as [| | b | n | str | items _ | fields IH]
    using JsValue_deep_ind; intros p t Hp; simpl;
    try (intros [= <-] ? ? []); try discriminate.
  intros Ht path v Hin.
  destruct (collect_In _ _ _ _ Ht Hin) as ([k value] & t' & Hk & Hf & Hw).
  rewrite Forall_forall in IH. destruct (IH _ Hk) as [Hv Hitems].
  simpl in Hv, Hitems.
  destruct (skipped (Some p) k) eqn:Esk; [inversion Hf; subst; contradiction|].
  destruct (assignments_property_inv _ _ _ _ Hf)
    as (inner & elements & -> & Hinner & Helements).
  rewrite (scoped_truthy _ _ Hp) in *.
  assert (Hchild : p ++ "." ++ k <> "")
    by (apply append_nonempty; discriminate).
  assert (Hlift : forall path',
             (exists rest, path' = (p ++ "." ++ k) ++ "." ++ rest) ->
             exists rest, path' = p ++ "." ++ rest).
  { intros path' (rest & ->). exists (k ++ "." ++ rest).
    now rewrite !append_assoc. }
  destruct Hw as [Hw|Hw]; [inversion Hw; subst; eauto|].
  apply in_app_or in Hw. destruct Hw as [Hw|Hw].
  - destruct (String.eqb (typeOf value) "object");
      [|inversion Hinner; subst; contradiction].
    apply Hlift. eapply Hv; eauto.
  - destruct (String.eqb (typeOf value) "array");
      [|inversion Helements; subst; contradiction].
    destruct value as [| | | | | items |];
      try (inversion Helements; subst; contradiction).
    destruct (collect_In _ _ _ _ Helements Hw) as (x & tx & Hx & Hfx & Hwx).
    specialize (Hitems _ eq_refl). rewrite Forall_forall in Hitems.
    apply Hlift. eapply Hitems; eauto.
Qed.

(** X16.  Folding a value below a non-empty parent path [p] (the value of
    an object-valued field, an element of an array-valued one) only writes
    entries whose path starts with [p] followed by a dot: every other entry
    of [properties] is left as it was. *)
Theorem fold_below_a_path_is_scoped
    (p : string) (document : JsValue) (schema properties final : Obj) :
  p <> "" ->
  properties_of schema = Some properties ->
  setSchemaForDocument (Some p) document schema = Ok final ->
  exists after,
    properties_of final = Some after
    /\ forall path,
         String.prefix (p ++ ".") path = false ->
         obj_get after path = obj_get properties path.
Proof.
  intros Hne Hp Hfold. rewrite (fold_replay _ _ _ _ Hp) in Hfold.
  destruct (assignments (Some p) document) as [t|e] eqn:Ht;
    simpl in Hfold; [|discriminate].
  injection Hfold as <-.
  exists (obj_assign properties (map node_of t)).
  split; [apply replay_properties|].
  intros path Hpath. apply obj_get_assign_absent, existsb_not_In.
  intros Hin. apply in_map_iff in Hin. destruct Hin as ([k n] & <- & Hin).
  apply in_map_iff in Hin. destruct Hin as ([path' v] & Heq & Hin).
  injection Heq as <- _.
  destruct (assignments_below _ _ _ Hne Ht _ _ Hin) as (rest & ->).
  cbn [fst] in Hpath. rewrite <- append_assoc, prefix_append in Hpath.
  discriminate.
Qed.

Lemma fold_below_a_path_is_scoped_witness :
  exists after,
    properties_of
      (replay (replay emptySchema [] [("tags", JStr "t"); ("name", JStr "n")])
         (obj_assign [] (map node_of [("tags", JStr "t"); ("name", JStr "n")]))
         [("tags.x", JStr "s")])
    = Some after
    /\ obj_get after "name" = Some (propertySchemaFor "string").
Proof.
  destruct (fold_below_a_path_is_scoped "tags" (JObj [("x", JStr "s")])
              (replay emptySchema [] [("tags", JStr "t"); ("name", JStr "n")])
              (obj_assign [] (map node_of [("tags", JStr "t"); ("name", JStr "n")]))
              _ ltac:(discriminate) eq_refl eq_refl)
    as (after & Hafter & Hkeep).
  exists after. split; [exact Hafter|].
  rewrite Hkeep; reflexivity.
Defined.
